(** * The value translation layer of the CBOR test harness

    A shallow embedding of [docker/containers/python-cbor2/server.py]
    ([to_json_safe], [from_json_safe], [decode_cbor], [encode_cbor]) and of
    [external-libs/python/cbor_bridge.py] ([convert_types]).

    Both translators are functions from Python objects to Python objects
    ([Any -> Any]); they dispatch on the run-time class of their argument.
    The embedding therefore has one universe [pyval] of Python objects, and
    a translator is a function [pyval -> outcome pyval], where [outcome] carries
    the exception a call may raise. *)

From Stdlib Require Import ZArith List String Ascii Bool Lia.
From Stdlib Require Import Floats.SpecFloat.
From Stdlib Require Import DecimalString DecimalZ DecimalPos.
From Stdlib Require Decimal DecimalFacts.
From Stdlib Require Import Strings.Byte.
Import ListNotations.
Open Scope string_scope.
Open Scope Z_scope.

(** ** Exceptions and the error monad *)

(** The exceptions that the modelled code can raise.  All of them derive
    from Python's [Exception]; [str(e)] is the carried message. *)
Inductive exn : Type :=
| ValueError (msg : string)
| TypeError (msg : string)
| KeyError (msg : string)
| BackendError (cls msg : string).

Definition exn_str (e : exn) : string :=
  match e with
  | ValueError msg => msg
  | TypeError msg => msg
  | KeyError msg => msg
  | BackendError _ msg => msg
  end.

Inductive outcome (A : Type) : Type :=
| Ok (a : A)
| Raise (e : exn).
Arguments Ok {A} a.
Arguments Raise {A} e.

Definition bind {A B : Type} (r : outcome A) (k : A -> outcome B) : outcome B :=
  match r with
  | Ok a => k a
  | Raise e => Raise e
  end.

Notation "x <- r ;; k" := (bind r (fun x => k))
  (at level 61, r at next level, right associativity).

Definition is_ok {A : Type} (r : outcome A) : bool :=
  match r with Ok _ => true | Raise _ => false end.

(** [try: body except Exception as e: handler(e)] *)
Definition try_except {A : Type} (body : outcome A) (handler : exn -> outcome A)
  : outcome A :=
  match body with
  | Ok a => Ok a
  | Raise e => handler e
  end.

(** A comprehension [[f(v) for v in l]]: left to right, the first exception
    aborts the whole expression. *)
Definition mapM {A B : Type} (f : A -> outcome B) : list A -> outcome (list B) :=
  fix go (l : list A) : outcome (list B) :=
    match l with
    | [] => Ok []
    | a :: l' => b <- f a ;; bs <- go l' ;; Ok (b :: bs)
    end.

(** ** Python objects *)

Set Warnings "-register-all".

(** The classes the two translators test for, plus the [cbor2] classes
    [CBORTag] and [undefined].  A [dict] is the sequence of its items in
    insertion order; a [set] is the sequence of its elements in iteration
    order.  Text is modelled over the code points below 256. *)
Inductive pyval : Type :=
| PNone
| PBool (b : bool)
| PInt (z : Z)
| PFloat (f : spec_float)
| PBytes (b : list byte)
| PByteArray (b : list byte)
| PStr (s : string)
| PList (l : list pyval)
| PTuple (l : list pyval)
| PSet (l : list pyval)
| PDict (items : list (pyval * pyval))
| PTag (tag : Z) (value : pyval)
| PUndefined.

(** Structural induction that reaches the elements of the containers. *)
Section pyval_induction.
Variable P : pyval -> Prop.
Hypothesis HNone : P PNone.
Hypothesis HBool : forall b, P (PBool b).
Hypothesis HInt : forall z, P (PInt z).
Hypothesis HFloat : forall f, P (PFloat f).
Hypothesis HBytes : forall b, P (PBytes b).
Hypothesis HByteArray : forall b, P (PByteArray b).
Hypothesis HStr : forall s, P (PStr s).
Hypothesis HList : forall l, Forall P l -> P (PList l).
Hypothesis HTuple : forall l, Forall P l -> P (PTuple l).
Hypothesis HSet : forall l, Forall P l -> P (PSet l).
Hypothesis HDict :
  forall items, Forall (fun kv => P (fst kv) /\ P (snd kv)) items -> P (PDict items).
Hypothesis HTag : forall t v, P v -> P (PTag t v).
Hypothesis HUndefined : P PUndefined.

Fixpoint pyval_ind_nested (v : pyval) : P v :=
  let fix elems (l : list pyval) : Forall P l :=
    match l with
    | [] => Forall_nil P
    | x :: l' => Forall_cons x (pyval_ind_nested x) (elems l')
    end in
  let fix entries (l : list (pyval * pyval))
    : Forall (fun kv => P (fst kv) /\ P (snd kv)) l :=
    match l with
    | [] => Forall_nil _
    | (k, x) :: l' =>
        Forall_cons (k, x) (conj (pyval_ind_nested k) (pyval_ind_nested x))
          (entries l')
    end in
  match v with
  | PNone => HNone
  | PBool b => HBool b
  | PInt z => HInt z
  | PFloat f => HFloat f
  | PBytes b => HBytes b
  | PByteArray b => HByteArray b
  | PStr s => HStr s
  | PList l => HList l (elems l)
  | PTuple l => HTuple l (elems l)
  | PSet l => HSet l (elems l)
  | PDict items => HDict items (entries items)
  | PTag t x => HTag t x (pyval_ind_nested x)
  | PUndefined => HUndefined
  end.
End pyval_induction.

(** [type(v).__name__] *)
Definition type_name (v : pyval) : string :=
  match v with
  | PNone => "NoneType"
  | PBool _ => "bool"
  | PInt _ => "int"
  | PFloat _ => "float"
  | PBytes _ => "bytes"
  | PByteArray _ => "bytearray"
  | PStr _ => "str"
  | PList _ => "list"
  | PTuple _ => "tuple"
  | PSet _ => "set"
  | PDict _ => "dict"
  | PTag _ _ => "CBORTag"
  | PUndefined => "undefined_type"
  end.

(** ** Builtins on numbers and text *)

(** The decimal text of an integer: base 10, a leading [-] for negatives. *)
Definition decimal_text (z : Z) : string := NilZero.string_of_int (Z.to_int z).

(** The number of decimal digits of an integer, the sign not counted. *)
Definition int_digits (z : Z) : nat := String.length (decimal_text (Z.abs z)).

(** [sys.int_info.default_max_str_digits] *)
Definition INT_MAX_STR_DIGITS : nat := 4300.

(** The integers that the interpreter converts to decimal text. *)
Definition printable (z : Z) : bool := Nat.leb (int_digits z) INT_MAX_STR_DIGITS.

Definition int_too_long : exn :=
  ValueError ("Exceeds the limit (4300 digits) for integer string conversion; "
                ++ "use sys.set_int_max_str_digits() to increase the limit").

(** [str(z)] and [repr(z)] for an [int]: the decimal text, unless it has more
    digits than the limit, in which case the conversion raises. *)
Definition str_int (z : Z) : outcome string :=
  if printable z then Ok (decimal_text z) else Raise int_too_long.

(** [int(s)] on plain decimal text: an optional [-], then digits. *)
Definition parse_int (s : string) : option Z :=
  option_map Z.of_int (NilZero.int_of_string s).

(** [str(b)] for a [bool]. *)
Definition str_bool (b : bool) : string := if b then "True" else "False".

(** [math.isnan], [math.isinf] and the comparison [f > 0]. *)
Definition isnan (f : spec_float) : bool :=
  match f with S754_nan => true | _ => false end.

Definition isinf (f : spec_float) : bool :=
  match f with S754_infinity _ => true | _ => false end.

Definition float_gt0 (f : spec_float) : bool := SFltb (S754_zero false) f.

Definition float_nan : spec_float := S754_nan.
Definition float_inf : spec_float := S754_infinity false.
Definition float_neg_inf : spec_float := S754_infinity true.

(** The integer a float is exactly equal to, if any (for [==] between an
    [int] and a [float]). *)
Definition float_as_int (f : spec_float) : option Z :=
  match f with
  | S754_zero _ => Some 0
  | S754_finite s m e =>
      let mag :=
        if 0 <=? e then Some (Zpos m * 2 ^ e)
        else if Zpos m mod 2 ^ (- e) =? 0 then Some (Zpos m / 2 ^ (- e))
        else None in
      option_map (fun z => if s then - z else z) mag
  | _ => None
  end.

(** ** Builtins on bytes *)

Definition hex_digit (n : N) : ascii :=
  match n with
  | 0 => "0" | 1 => "1" | 2 => "2" | 3 => "3" | 4 => "4" | 5 => "5"
  | 6 => "6" | 7 => "7" | 8 => "8" | 9 => "9" | 10 => "a" | 11 => "b"
  | 12 => "c" | 13 => "d" | 14 => "e" | _ => "f"
  end%N%char.

(** [b.hex()]: two lowercase digits for each byte. *)
Fixpoint bytes_hex (b : list byte) : string :=
  match b with
  | [] => EmptyString
  | x :: b' =>
      let n := Byte.to_N x in
      String (hex_digit (n / 16)) (String (hex_digit (n mod 16)) (bytes_hex b'))
  end.

(** The value of a hexadecimal digit, in either case. *)
Definition hexval (c : ascii) : option N :=
  let n := N_of_ascii c in
  if ((48 <=? n) && (n <=? 57))%N then Some (n - 48)%N
  else if ((97 <=? n) && (n <=? 102))%N then Some (n - 87)%N
  else if ((65 <=? n) && (n <=? 70))%N then Some (n - 55)%N
  else None.

(** C's [isspace] on the ASCII range, as [bytes.fromhex] uses it. *)
Definition is_space (c : ascii) : bool :=
  let n := N_of_ascii c in
  ((n =? 32) || ((9 <=? n) && (n <=? 13)))%N.

Definition byte_of_nibbles (hi lo : N) : byte :=
  match Byte.of_N (16 * hi + lo) with
  | Some b => b
  | None => x00
  end.

Definition fromhex_error (pos : nat) : exn :=
  ValueError ("non-hexadecimal number found in fromhex() arg at position "
                ++ decimal_text (Z.of_nat pos)).

(** The scanning loop of [bytes.fromhex]: white space is skipped in front of
    a pair of digits, never inside one; a missing second digit is reported at
    the position just after the first. *)
Fixpoint fromhex_scan (s : string) (pos : nat) : outcome (list byte) :=
  match s with
  | EmptyString => Ok []
  | String c rest =>
      if is_space c then fromhex_scan rest (S pos)
      else
        match hexval c with
        | None => Raise (fromhex_error pos)
        | Some hi =>
            match rest with
            | EmptyString => Raise (fromhex_error (S pos))
            | String d rest' =>
                match hexval d with
                | None => Raise (fromhex_error (S pos))
                | Some lo =>
                    bs <- fromhex_scan rest' (S (S pos)) ;;
                    Ok (byte_of_nibbles hi lo :: bs)
                end
            end
        end
  end.

(** The index of the first character outside ASCII, if there is one. *)
Fixpoint first_non_ascii (s : string) (pos : nat) : option nat :=
  match s with
  | EmptyString => None
  | String c rest =>
      if (128 <=? N_of_ascii c)%N then Some pos else first_non_ascii rest (S pos)
  end.

(** [bytes.fromhex(s)] for a [str] argument. *)
Definition fromhex_str (s : string) : outcome (list byte) :=
  match first_non_ascii s 0 with
  | Some pos => Raise (fromhex_error pos)
  | None => fromhex_scan s 0
  end.

(** [bytes.fromhex(x)] for any argument. *)
Definition bytes_fromhex (x : pyval) : outcome (list byte) :=
  match x with
  | PStr s => fromhex_str s
  | _ => Raise (TypeError ("fromhex() argument must be str, not " ++ type_name x))
  end.

(** ** Dictionaries *)

(** The numeric view of an object: [bool] is a subclass of [int], and
    numbers of different classes compare by value. *)
Definition as_number (v : pyval) : option (Z + spec_float) :=
  match v with
  | PBool b => Some (inl (Z.b2z b))
  | PInt z => Some (inl z)
  | PFloat f => Some (inr f)
  | _ => None
  end.

Definition num_eqb (x y : Z + spec_float) : bool :=
  match x, y with
  | inl a, inl b => a =? b
  | inl a, inr f | inr f, inl a =>
      match float_as_int f with
      | Some b => a =? b
      | None => false
      end
  | inr f, inr g => SFeqb f g
  end.

Definition bytes_eqb (x y : list byte) : bool :=
  if list_eq_dec Byte.byte_eq_dec x y then true else false.

(** Two sequences of the same length whose elements are pairwise related. *)
Definition all2 {A B : Type} (f : A -> B -> bool) : list A -> list B -> bool :=
  fix go (l : list A) (l' : list B) {struct l} : bool :=
    match l, l' with
    | [], [] => true
    | x :: r, y :: r' => f x y && go r r'
    | _, _ => false
    end.

(** [a == b] between two hashable objects, as a dictionary uses it to decide
    whether a key is already present.  (A dictionary also finds a key that is
    the very same object; this matters for NaN only and is left out.) *)
Fixpoint key_eqb (a b : pyval) {struct a} : bool :=
  match a, b with
  | PNone, PNone => true
  | PStr s, PStr t => String.eqb s t
  | PBytes x, PBytes y => bytes_eqb x y
  | PTuple l, PTuple l' => all2 key_eqb l l'
  | PTag t v, PTag t' v' => (t =? t') && key_eqb v v'
  | PUndefined, PUndefined => true
  | _, _ =>
      match as_number a, as_number b with
      | Some x, Some y => num_eqb x y
      | _, _ => false
      end
  end.

(** Whether [hash(v)] succeeds. *)
Fixpoint hashable (v : pyval) : bool :=
  match v with
  | PNone | PBool _ | PInt _ | PFloat _ | PBytes _ | PStr _ | PUndefined => true
  | PTuple l => forallb hashable l
  | PTag _ x => hashable x
  | PByteArray _ | PList _ | PSet _ | PDict _ => false
  end.

Definition dict := list (pyval * pyval).

(** [k in d] *)
Definition dict_contains (k : pyval) (d : dict) : bool :=
  existsb (fun kv => key_eqb (fst kv) k) d.

(** [d[k]] when [k in d] *)
Definition dict_get (k : pyval) (d : dict) : option pyval :=
  option_map snd (find (fun kv => key_eqb (fst kv) k) d).

(** [d[k] = v]: an existing key keeps its place and its key object and takes
    the new value; a new key goes to the end. *)
Fixpoint dict_setitem (k v : pyval) (d : dict) : dict :=
  match d with
  | [] => [(k, v)]
  | (k', v') :: d' =>
      if key_eqb k' k then (k', v) :: d' else (k', v') :: dict_setitem k v d'
  end.

(** [d[k] = v] for a key of any class: an unhashable key raises. *)
Definition dict_setitem_hashed (k v : pyval) (d : dict) : outcome dict :=
  if hashable k then Ok (dict_setitem k v d)
  else Raise (TypeError ("unhashable type: '" ++ type_name k ++ "'")).

(** [d[name]] for a text key; a missing key raises [KeyError(name)], whose
    message is the key in quotes. *)
Definition key_error (name : string) : exn :=
  KeyError ("'" ++ name ++ "'").

Definition dict_getitem (name : string) (d : dict) : outcome pyval :=
  match dict_get (PStr name) d with
  | Some v => Ok v
  | None => Raise (key_error name)
  end.

(** [f(d[name])] *)
Definition getitem_with (f : pyval -> outcome pyval) (name : string)
  : dict -> outcome pyval :=
  fix go (items : dict) : outcome pyval :=
    match items with
    | [] => Raise (key_error name)
    | (k', v) :: items' => if key_eqb k' (PStr name) then f v else go items'
    end.

(** Building a dictionary from the items of another, one assignment
    [result[key_of(k)] = val_of(v)] for each item in order; this is both the
    [for] loop over [value.items()] and the dictionary comprehension.  The
    key is computed before the value. *)
Definition dict_build (key_of val_of : pyval -> outcome pyval)
  : dict -> dict -> outcome pyval :=
  fix loop (items : dict) (result : dict) {struct items} : outcome pyval :=
    match items with
    | [] => Ok (PDict result)
    | (k, v) :: items' =>
        key <- key_of k ;;
        v' <- val_of v ;;
        result' <- dict_setitem_hashed key v' result ;;
        loop items' result'
    end.

(** ** [json.dumps] with its default arguments *)

Definition dquote : ascii := "034"%char.

Definition hex4 (n : N) : string :=
  String (hex_digit (n / 4096)) (String (hex_digit ((n / 256) mod 16))
    (String (hex_digit ((n / 16) mod 16)) (String (hex_digit (n mod 16)) EmptyString))).

(** One character of a JSON string literal under [ensure_ascii]. *)
Definition json_escape (c : ascii) : string :=
  let n := N_of_ascii c in
  if (n =? 34)%N then String "\" (String dquote EmptyString)
  else if (n =? 92)%N then "\\"
  else if (n =? 10)%N then "\n"
  else if (n =? 13)%N then "\r"
  else if (n =? 9)%N then "\t"
  else if (n =? 8)%N then "\b"
  else if (n =? 12)%N then "\f"
  else if ((32 <=? n) && (n <=? 126))%N then String c EmptyString
  else "\u" ++ hex4 n.

Fixpoint json_escape_all (s : string) : string :=
  match s with
  | EmptyString => EmptyString
  | String c s' => json_escape c ++ json_escape_all s'
  end.

Definition json_string (s : string) : string :=
  String dquote (json_escape_all s ++ String dquote EmptyString).

Fixpoint join (sep : string) (l : list string) : string :=
  match l with
  | [] => EmptyString
  | [x] => x
  | x :: l' => x ++ sep ++ join sep l'
  end.

Section json.

(** [float.__repr__] on finite floats, the shortest decimal text that reads
    back as the same float; taken as given. *)
Variable float_repr : spec_float -> string.

Definition json_float (f : spec_float) : string :=
  if isnan f then "NaN"
  else if isinf f then (if float_gt0 f then "Infinity" else "-Infinity")
  else float_repr f.

(** The text of a dictionary key; keys that are not [str], [int], [float],
    [bool] or [None] raise. *)
Definition json_key (k : pyval) : outcome string :=
  match k with
  | PStr s => Ok (json_string s)
  | PFloat f => Ok (json_string (json_float f))
  | PBool true => Ok (json_string "true")
  | PBool false => Ok (json_string "false")
  | PNone => Ok (json_string "null")
  | PInt z => text <- str_int z ;; Ok (json_string text)
  | _ => Raise (TypeError ("keys must be str, int, float, bool or None, not "
                            ++ type_name k))
  end.

Fixpoint json_dumps (v : pyval) : outcome string :=
  match v with
  | PStr s => Ok (json_string s)
  | PNone => Ok "null"
  | PBool true => Ok "true"
  | PBool false => Ok "false"
  | PInt z => str_int z
  | PFloat f => Ok (json_float f)
  | PList l | PTuple l =>
      parts <- mapM json_dumps l ;;
      Ok ("[" ++ join ", " parts ++ "]")
  | PDict items =>
      parts <- (fix go (items : dict) : outcome (list string) :=
                  match items with
                  | [] => Ok []
                  | (k, x) :: items' =>
                      ks <- json_key k ;;
                      xs <- json_dumps x ;;
                      rest <- go items' ;;
                      Ok ((ks ++ ": " ++ xs) :: rest)
                  end) items ;;
      Ok ("{" ++ join ", " parts ++ "}")
  | PBytes _ | PByteArray _ | PSet _ | PTag _ _ | PUndefined =>
      Raise (TypeError ("Object of type " ++ type_name v
                          ++ " is not JSON serializable"))
  end.

End json.

(** ** The [cbor2] classes *)

(** [cbor2.CBORTag(tag, value)]: the tag is stored as an unsigned 64-bit
    number; anything else raises. *)
Definition CBORTag (tag value : pyval) : outcome pyval :=
  let bad := Raise (TypeError "CBORTag tags must be positive integers less than 2**64") in
  match tag with
  | PInt z => if (0 <=? z) && (z <? 2 ^ 64) then Ok (PTag z value) else bad
  | PBool b => Ok (PTag (Z.b2z b) value)
  | _ => bad
  end.

(** ** server.py *)

Definition MAX_SAFE_INTEGER : Z := 9007199254740991.

Definition K_bytes : pyval := PStr "__cbor_bytes__".
Definition K_float : pyval := PStr "__cbor_float__".
Definition K_tag : pyval := PStr "__cbor_tag__".
Definition K_value : pyval := PStr "__cbor_value__".
Definition K_undefined : pyval := PStr "__cbor_undefined__".

(** The branch of both translators for a [float]. *)
Definition float_to_json (f : spec_float) : pyval :=
  if isnan f then PDict [(K_float, PStr "NaN")]
  else if isinf f then
    PDict [(K_float, PStr (if float_gt0 f then "Infinity" else "-Infinity"))]
  else PFloat f.

(** The branch of both translators for an [int] whose value is [z];
    [text] is what [str(value)] gives and [same] is the object itself. *)
Definition int_to_json (z : Z) (text : outcome string) (same : pyval)
  : outcome pyval :=
  if (z >? MAX_SAFE_INTEGER) || (z <? - MAX_SAFE_INTEGER)
  then t <- text ;; Ok (PStr t)
  else Ok same.

Section server.

Variable float_repr : spec_float -> string.

Fixpoint to_json_safe (value : pyval) : outcome pyval :=
  match value with
  | PNone => Ok PNone
  | PBytes b => Ok (PDict [(K_bytes, PStr (bytes_hex b))])
  | PByteArray b => Ok (PDict [(K_bytes, PStr (bytes_hex b))])
  | PFloat f => Ok (float_to_json f)
  | PBool b => int_to_json (Z.b2z b) (Ok (str_bool b)) value
  | PInt z => int_to_json z (str_int z) value
  | PTag t x =>
      x' <- to_json_safe x ;;
      Ok (PDict [(K_tag, PInt t); (K_value, x')])
  | PDict items =>
      dict_build
        (fun k =>
           match k with
           | PBytes b => Ok (PStr (bytes_hex b))
           | PBool b => Ok (PStr (str_bool b))
           | PInt z => key <- str_int z ;; Ok (PStr key)
           | PStr s => Ok (PStr s)
           | _ => k' <- to_json_safe k ;; key <- json_dumps float_repr k' ;; Ok (PStr key)
           end)
        to_json_safe items []
  | PList l | PTuple l => l' <- mapM to_json_safe l ;; Ok (PList l')
  | PSet l => l' <- mapM to_json_safe l ;; Ok (PList l')
  | PStr _ | PUndefined => Ok value
  end.

(** The key under which [to_json_safe] stores the item of key [k]. *)
Definition map_key (k : pyval) : outcome pyval :=
  match k with
  | PBytes b => Ok (PStr (bytes_hex b))
  | PBool b => Ok (PStr (str_bool b))
  | PInt z => key <- str_int z ;; Ok (PStr key)
  | PStr s => Ok (PStr s)
  | _ => k' <- to_json_safe k ;; key <- json_dumps float_repr k' ;; Ok (PStr key)
  end.

(** The three recognised values of the float marker. *)
Definition float_marker (float_val : pyval) : option spec_float :=
  match float_val with
  | PStr s =>
      if String.eqb s "NaN" then Some float_nan
      else if String.eqb s "Infinity" then Some float_inf
      else if String.eqb s "-Infinity" then Some float_neg_inf
      else None
  | _ => None
  end.

(** The test a dictionary passes when its float marker is recognised. *)
Definition float_marker_of (d : dict) : option spec_float :=
  if dict_contains K_float d then
    match dict_get K_float d with
    | Some float_val => float_marker float_val
    | None => None
    end
  else None.

Fixpoint from_json_safe (value : pyval) : outcome pyval :=
  match value with
  | PNone => Ok PNone
  | PDict d =>
      if dict_contains K_bytes d then
        h <- dict_getitem "__cbor_bytes__" d ;;
        b <- bytes_fromhex h ;;
        Ok (PBytes b)
      else
        match float_marker_of d with
        | Some f => Ok (PFloat f)
        | None =>
            if dict_contains K_tag d && dict_contains K_value d then
              t <- dict_getitem "__cbor_tag__" d ;;
              x <- getitem_with from_json_safe "__cbor_value__" d ;;
              CBORTag t x
            else if dict_contains K_undefined d then Ok PUndefined
            else dict_build (fun k => Ok k) from_json_safe d []
        end
  | PList l => l' <- mapM from_json_safe l ;; Ok (PList l')
  | _ => Ok value
  end.

(** The injected CBOR codec, [cbor2.loads] and [cbor2.dumps]. *)
Variable cbor2_loads : list byte -> outcome pyval.
Variable cbor2_dumps : pyval -> outcome (list byte).

Definition float_1000 : spec_float := S754_finite false 8796093022208000 (-43).

(** [(time.perf_counter() - start_time) * 1000] on binary64. *)
Definition elapsed_ms (start_time now : spec_float) : spec_float :=
  SFmul 53 1024 (SFsub 53 1024 now start_time) float_1000.

Definition failure_envelope (e : exn) : pyval :=
  PDict [(PStr "success", PBool false); (PStr "error", PStr (exn_str e))].

(** [decode_cbor]; [start_time] and [now] are the two clock readings. *)
Definition decode_cbor (start_time now : spec_float) (hex_string : pyval)
  : outcome pyval :=
  try_except
    (data <- bytes_fromhex hex_string ;;
     result <- cbor2_loads data ;;
     json_result <- to_json_safe result ;;
     Ok (PDict [(PStr "success", PBool true);
                (PStr "result", json_result);
                (PStr "duration_ms", PFloat (elapsed_ms start_time now))]))
    (fun e => Ok (failure_envelope e)).

(** [encode_cbor] *)
Definition encode_cbor (start_time now : spec_float) (value : pyval)
  : outcome pyval :=
  try_except
    (py_value <- from_json_safe value ;;
     encoded <- cbor2_dumps py_value ;;
     Ok (PDict [(PStr "success", PBool true);
                (PStr "hex", PStr (bytes_hex encoded));
                (PStr "duration_ms", PFloat (elapsed_ms start_time now))]))
    (fun e => Ok (failure_envelope e)).

End server.

(** ** cbor_bridge.py *)

Fixpoint convert_types (value : pyval) : outcome pyval :=
  match value with
  | PBytes b => Ok (PDict [(K_bytes, PStr (bytes_hex b))])
  | PByteArray b => Ok (PDict [(K_bytes, PStr (bytes_hex b))])
  | PFloat f => Ok (float_to_json f)
  | PBool b => int_to_json (Z.b2z b) (Ok (str_bool b)) value
  | PInt z => int_to_json z (str_int z) value
  | PDict items => dict_build convert_types convert_types items []
  | PList l => l' <- mapM convert_types l ;; Ok (PList l')
  | PTuple l => l' <- mapM convert_types l ;; Ok (PList l')
  | PSet l => l' <- mapM convert_types l ;; Ok (PList l')
  | PNone | PStr _ | PTag _ _ | PUndefined => Ok value
  end.

(** A stand-in for [float.__repr__] in closed examples that print no float. *)
Definition repr_unused : spec_float -> string := fun _ => EmptyString.

(** ** Notions used to state the properties *)

(** Outside JavaScript's safe integer range. *)
Definition beyond_safe (z : Z) : bool :=
  (z >? MAX_SAFE_INTEGER) || (z <? - MAX_SAFE_INTEGER).

Definition sf_eqb (f g : spec_float) : bool :=
  match f, g with
  | S754_zero a, S754_zero b => Bool.eqb a b
  | S754_infinity a, S754_infinity b => Bool.eqb a b
  | S754_nan, S754_nan => true
  | S754_finite a m e, S754_finite b n k => Bool.eqb a b && (m =? n)%positive && (e =? k)
  | _, _ => false
  end.

(** The octets of a ByteString and the elements of an Array, whatever the
    Python class that holds them. *)
Definition as_bytes (v : pyval) : option (list byte) :=
  match v with
  | PBytes b | PByteArray b => Some b
  | _ => None
  end.

Definition as_array (v : pyval) : option (list pyval) :=
  match v with
  | PList l | PTuple l | PSet l => Some l
  | _ => None
  end.

(** Semantic equality of a native value [v] and what came back for it, [w]:
    the same variant with the same content, where an Integer outside the safe
    range may come back as a decimal string that reads as the same integer,
    and NaN is equal to NaN. *)
Fixpoint sem_eqb (v w : pyval) {struct v} : bool :=
  match v with
  | PNone => match w with PNone => true | _ => false end
  | PBool a => match w with PBool b => Bool.eqb a b | _ => false end
  | PInt a =>
      match w with
      | PInt b => a =? b
      | PStr s =>
          beyond_safe a &&
          match parse_int s with Some b => a =? b | None => false end
      | _ => false
      end
  | PFloat f =>
      match w with
      | PFloat g => (isnan f && isnan g) || sf_eqb f g
      | _ => false
      end
  | PBytes a | PByteArray a =>
      match as_bytes w with Some b => bytes_eqb a b | None => false end
  | PStr s => match w with PStr t => String.eqb s t | _ => false end
  | PList l | PTuple l | PSet l =>
      match as_array w with Some l' => all2 sem_eqb l l' | None => false end
  | PDict d =>
      match w with
      | PDict d' =>
          all2 (fun kv kv' =>
                  let '(k, x) := kv in
                  let '(k', x') := kv' in
                  sem_eqb k k' && sem_eqb x x') d d'
      | _ => false
      end
  | PTag t x =>
      match w with PTag t' x' => (t =? t') && sem_eqb x x' | _ => false end
  | PUndefined => match w with PUndefined => true | _ => false end
  end.

Definition is_str (v : pyval) : bool :=
  match v with PStr _ => true | _ => false end.

(** No key of the dictionary is equal to an earlier one; every Python
    dictionary has this property. *)
Fixpoint keys_distinct (d : dict) : bool :=
  match d with
  | [] => true
  | (k, _) :: d' =>
      forallb (fun kv => negb (key_eqb k (fst kv))) d' && keys_distinct d'
  end.

(** Whether an envelope has a field of that name. *)
Definition has_field (name : string) (envelope : pyval) : bool :=
  match envelope with
  | PDict d => dict_contains (PStr name) d
  | _ => false
  end.

(** What holds of every Python dictionary: its keys are hashable and
    pairwise different. *)
Definition dict_wf (d : dict) : bool :=
  forallb (fun kv => hashable (fst kv)) d && keys_distinct d.

(** The tests by which [from_json_safe] takes a dictionary for a marker. *)
Definition marker_shaped (d : dict) : bool :=
  dict_contains K_bytes d
  || match float_marker_of d with Some _ => true | None => false end
  || (dict_contains K_tag d && dict_contains K_value d)
  || dict_contains K_undefined d.

(** The native values on which the round trip is lossless: tag numbers are
    unsigned 64-bit, and every Map has text keys and is not shaped like a
    marker. *)
Fixpoint translatable (v : pyval) : bool :=
  match v with
  | PList l | PTuple l | PSet l => forallb translatable l
  | PTag t x => (0 <=? t) && (t <? 2 ^ 64) && translatable x
  | PDict d =>
      forallb (fun kv => is_str (fst kv) && translatable (snd kv)) d
      && keys_distinct d && negb (marker_shaped d)
  | _ => true
  end.

(** [j], the translation of [v], comes back as a value that is semantically
    equal to [v] and whose own translation is [j] again. *)
Definition comes_back (float_repr : spec_float -> string) (v j : pyval) : Prop :=
  exists w,
    from_json_safe j = Ok w
    /\ sem_eqb v w = true
    /\ to_json_safe float_repr w = Ok j.


(** Every Integer and every tag number has at most 4300 decimal digits, so
    that [str] and [json.dumps] convert it. *)
Fixpoint ints_printable (v : pyval) : bool :=
  match v with
  | PInt z => printable z
  | PList l | PTuple l | PSet l => forallb ints_printable l
  | PTag t x => printable t && ints_printable x
  | PDict d =>
      forallb (fun kv => ints_printable (fst kv) && ints_printable (snd kv)) d
  | _ => true
  end.

(** The entry [kv'] is what [to_json_safe] stores for the entry [kv]. *)
Definition translates_entry (float_repr : spec_float -> string)
  (kv kv' : pyval * pyval) : Prop :=
  map_key float_repr (fst kv) = Ok (fst kv')
  /\ to_json_safe float_repr (snd kv) = Ok (snd kv').


(** The values the two bridges translate alike: no Tag inside, and every
    Map has text keys. *)
Fixpoint tag_free_text_keyed (v : pyval) : bool :=
  match v with
  | PList l | PTuple l | PSet l => forallb tag_free_text_keyed l
  | PTag _ _ => false
  | PDict d =>
      forallb (fun kv => is_str (fst kv) && tag_free_text_keyed (snd kv)) d
  | _ => true
  end.

(** Hex decoding as the specification words it: the text must have an even
    number of characters, all of them hexadecimal digits of either case. *)
Fixpoint hex_decode (s : string) : option (list byte) :=
  match s with
  | EmptyString => Some []
  | String c (String d rest) =>
      match hexval c, hexval d, hex_decode rest with
      | Some hi, Some lo, Some bs => Some (byte_of_nibbles hi lo :: bs)
      | _, _, _ => None
      end
  | String _ EmptyString => None
  end.

Fixpoint string_forallb (p : ascii -> bool) (s : string) : bool :=
  match s with
  | EmptyString => true
  | String c s' => p c && string_forallb p s'
  end.

Definition is_hex_digit (c : ascii) : bool :=
  match hexval c with Some _ => true | None => false end.

Definition no_space (s : string) : bool :=
  string_forallb (fun c => negb (is_space c)) s.

(** [c.lower()] and [c.upper()] on ASCII letters. *)
Definition ascii_lower (c : ascii) : ascii :=
  let n := N_of_ascii c in
  if ((65 <=? n) && (n <=? 90))%N then ascii_of_N (n + 32) else c.

Definition ascii_upper (c : ascii) : ascii :=
  let n := N_of_ascii c in
  if ((97 <=? n) && (n <=? 122))%N then ascii_of_N (n - 32) else c.

Fixpoint string_map (f : ascii -> ascii) (s : string) : string :=
  match s with
  | EmptyString => EmptyString
  | String c s' => String (f c) (string_map f s')
  end.

(** ** server.py: the HTTP handler *)

(** What the handler does to its connection, call by call. *)
Inductive http_event : Type :=
| SendResponse (status : Z)
| SendHeader (name value : string)
| EndHeaders
| Write (body : string).

(** A handler action: the calls it made, and how it ended. *)
Definition io (A : Type) : Type := (list http_event * outcome A)%type.

Definition io_lift {A : Type} (r : outcome A) : io A := ([], r).

Definition io_bind {A B : Type} (m : io A) (k : A -> io B) : io B :=
  match m with
  | (out, Ok a) => let (out', r) := k a in ((out ++ out')%list, r)
  | (out, Raise e) => (out, Raise e)
  end.

Notation "x <~ m ;; k" := (io_bind m (fun x => k))
  (at level 61, m at next level, right associativity).

(** [try: body except ... as e: handler(e)] around an action: what the body
    already sent stays sent. *)
Definition io_try {A : Type} (body : io A) (handler : exn -> io A) : io A :=
  match body with
  | (out, Ok a) => (out, Ok a)
  | (out, Raise e) => let (out', r) := handler e in ((out ++ out')%list, r)
  end.

(** [name in data] for a text [name]. *)
Fixpoint is_substring (p s : string) : bool :=
  String.prefix p s
  || match s with
     | EmptyString => false
     | String _ s' => is_substring p s'
     end.

Definition py_contains (name : string) (data : pyval) : outcome bool :=
  match data with
  | PDict d => Ok (dict_contains (PStr name) d)
  | PList l | PTuple l | PSet l =>
      Ok (existsb (fun x => key_eqb x (PStr name)) l)
  | PStr s => Ok (is_substring name s)
  | PBytes _ | PByteArray _ =>
      Raise (TypeError "a bytes-like object is required, not 'str'")
  | _ => Raise (TypeError ("argument of type '" ++ type_name data
                             ++ "' is not iterable"))
  end.

(** [data[name]] for a text [name]. *)
Definition py_getitem (data : pyval) (name : string) : outcome pyval :=
  match data with
  | PDict d => dict_getitem name d
  | PStr _ => Raise (TypeError "string indices must be integers, not 'str'")
  | PList _ | PTuple _ | PBytes _ | PByteArray _ =>
      Raise (TypeError (type_name data
                          ++ " indices must be integers or slices, not str"))
  | _ => Raise (TypeError ("'" ++ type_name data
                             ++ "' object is not subscriptable"))
  end.

(** An exception of class [json.JSONDecodeError]. *)
Definition JSONDecodeError (msg : string) : exn :=
  BackendError "JSONDecodeError" msg.

Definition is_JSONDecodeError (e : exn) : bool :=
  match e with
  | BackendError cls _ => String.eqb cls "JSONDecodeError"
  | _ => false
  end.

Definition health_report : pyval :=
  PDict [(PStr "status", PStr "ok");
         (PStr "library", PStr "cbor2");
         (PStr "version", PStr "5.6.5");
         (PStr "language", PStr "python")].

Definition not_found : pyval := PDict [(PStr "error", PStr "Not found")].

Definition request_failure (msg : string) : pyval :=
  PDict [(PStr "success", PBool false); (PStr "error", PStr msg)].

(** The text [Missing "name" field]. *)
Definition missing_field (name : string) : string :=
  "Missing " ++ String dquote (name ++ String dquote " field").

Section handler.

Variable float_repr : spec_float -> string.
Variable cbor2_loads : list byte -> outcome pyval.
Variable cbor2_dumps : pyval -> outcome (list byte).

(** [json.loads] on the request body; a text that is not JSON raises
    [JSONDecodeError]. *)
Variable json_loads : string -> outcome pyval.

(** The clock readings of the one codec call a request makes. *)
Variable start_time now : spec_float.

(** [send_json]: the status line and the header are sent before the body is
    serialised. *)
Definition send_json (status : Z) (data : pyval) : io unit :=
  _ <~ ([SendResponse status;
          SendHeader "Content-Type" "application/json";
          EndHeaders], Ok tt) ;;
  body <~ io_lift (json_dumps float_repr data) ;;
  ([Write body], Ok tt).

Definition do_GET (path : string) : io unit :=
  if String.eqb path "/health" then send_json 200 health_report
  else send_json 404 not_found.

(** [do_POST]; [request_body] is how reading [Content-Length] bytes and
    decoding them as text ended. *)
Definition do_POST (path : string) (request_body : outcome string) : io unit :=
  io_try
    (body <~ io_lift request_body ;;
     data <~ io_lift (json_loads body) ;;
     if String.eqb path "/decode" then
       present <~ io_lift (py_contains "hex" data) ;;
       if negb present then send_json 400 (request_failure (missing_field "hex"))
       else
         hex_string <~ io_lift (py_getitem data "hex") ;;
         result <~ io_lift (decode_cbor float_repr cbor2_loads start_time now
                              hex_string) ;;
         send_json 200 result
     else if String.eqb path "/encode" then
       present <~ io_lift (py_contains "value" data) ;;
       if negb present then send_json 400 (request_failure (missing_field "value"))
       else
         value <~ io_lift (py_getitem data "value") ;;
         result <~ io_lift (encode_cbor cbor2_dumps start_time now value) ;;
         send_json 200 result
     else send_json 404 not_found)
    (fun e =>
       if is_JSONDecodeError e then send_json 400 (request_failure "Invalid JSON")
       else send_json 500 (request_failure (exn_str e))).

End handler.

(** ** cbor_bridge.py: the command line bridge *)

(** [str.isspace] on the code points below 256, and [str.strip]. *)
Definition py_isspace (c : ascii) : bool :=
  let n := N_of_ascii c in
  (((9 <=? n) && (n <=? 13)) || ((28 <=? n) && (n <=? 32))
   || (n =? 133) || (n =? 160))%N.

Fixpoint lstrip (s : string) : string :=
  match s with
  | EmptyString => EmptyString
  | String c s' => if py_isspace c then lstrip s' else s
  end.

Fixpoint rstrip (s : string) : string :=
  match s with
  | EmptyString => EmptyString
  | String c s' =>
      match rstrip s' with
      | EmptyString => if py_isspace c then EmptyString else String c EmptyString
      | r => String c r
      end
  end.

Definition strip (s : string) : string := rstrip (lstrip s).

Definition usage_report : pyval :=
  PDict [(PStr "error",
           PStr "Usage: cbor_bridge.py <library> <action> [data]")].

Section bridge.

Variable float_repr : spec_float -> string.
Variable json_loads : string -> outcome pyval.

(** The two codecs: [cbor2.loads], [cbor2.dumps], [dag_cbor.decode] and
    [dag_cbor.encode]. *)
Variable cbor2_loads : list byte -> outcome pyval.
Variable cbor2_dumps : pyval -> outcome (list byte).
Variable dag_cbor_decode_bytes : list byte -> outcome pyval.
Variable dag_cbor_encode_value : pyval -> outcome (list byte).

Definition cbor2_encode (data : pyval) : outcome string :=
  encoded <- cbor2_dumps data ;; Ok (bytes_hex encoded).

Definition cbor2_decode (hex_string : string) : outcome pyval :=
  bytes_data <- fromhex_str hex_string ;;
  result <- cbor2_loads bytes_data ;;
  convert_types result.

Definition dag_cbor_encode (data : pyval) : outcome string :=
  encoded <- dag_cbor_encode_value data ;; Ok (bytes_hex encoded).

Definition dag_cbor_decode (hex_string : string) : outcome pyval :=
  bytes_data <- fromhex_str hex_string ;;
  result <- dag_cbor_decode_bytes bytes_data ;;
  convert_types result.

Definition bridge_success (result : pyval) : pyval :=
  PDict [(PStr "success", PBool true); (PStr "result", result)].

(** The body of the [try] in [main]: the line it prints. *)
Definition bridge_request (library action stdin : string) : outcome string :=
  if String.eqb action "encode" then
    data <- json_loads stdin ;;
    result <- (if String.eqb library "cbor2" then cbor2_encode data
               else if String.eqb library "dag-cbor" then dag_cbor_encode data
               else Raise (ValueError ("Unknown library: " ++ library))) ;;
    json_dumps float_repr (bridge_success (PStr result))
  else if String.eqb action "decode" then
    let hex_string := strip stdin in
    result <- (if String.eqb library "cbor2" then cbor2_decode hex_string
               else if String.eqb library "dag-cbor" then dag_cbor_decode hex_string
               else Raise (ValueError ("Unknown library: " ++ library))) ;;
    json_dumps float_repr (bridge_success result)
  else Raise (ValueError ("Unknown action: " ++ action)).

(** [main]: the lines printed on the standard output and the exit status.
    An exception nobody catches ends the process with status 1. *)
Definition bridge_main (argv : list string) (stdin : string)
  : list string * Z :=
  match argv with
  | _ :: library :: action :: _ =>
      match bridge_request library action stdin with
      | Ok line => ([line], 0)
      | Raise e =>
          match json_dumps float_repr (request_failure (exn_str e)) with
          | Ok line => ([line], 1)
          | Raise _ => ([], 1)
          end
      end
  | _ =>
      match json_dumps float_repr usage_report with
      | Ok line => ([line], 1)
      | Raise _ => ([], 1)
      end
  end.

End bridge.

(** ** [json.loads] with its default arguments *)

(** How a scanning function of the decoder ends.  A place in the document
    is given as the text that starts there. *)
Inductive scanned (A : Type) : Type :=
| Found (a : A) (rest : string)
| Stop (here : string)
| Malformed (msg : string) (here : string)
| Failed (e : exn).
Arguments Found {A} a rest.
Arguments Stop {A} here.
Arguments Malformed {A} msg here.
Arguments Failed {A} e.

Definition scan_map {A B : Type} (f : A -> B) (r : scanned A) : scanned B :=
  match r with
  | Found a rest => Found (f a) rest
  | Stop here => Stop here
  | Malformed msg here => Malformed msg here
  | Failed e => Failed e
  end.

(** The decoder's white space: space, tab, line feed, carriage return. *)
Definition is_json_space (c : ascii) : bool :=
  let n := N_of_ascii c in
  ((n =? 32) || (n =? 9) || (n =? 10) || (n =? 13))%N.

Fixpoint skip_whitespace (s : string) : string :=
  match s with
  | EmptyString => EmptyString
  | String c rest => if is_json_space c then skip_whitespace rest else s
  end.

(** The character a backslash escape of one letter stands for. *)
Definition unescape (c : ascii) : option ascii :=
  let n := N_of_ascii c in
  if ((n =? 34) || (n =? 92) || (n =? 47))%N then Some c
  else if (n =? 98)%N then Some (ascii_of_N 8)
  else if (n =? 102)%N then Some (ascii_of_N 12)
  else if (n =? 110)%N then Some (ascii_of_N 10)
  else if (n =? 114)%N then Some (ascii_of_N 13)
  else if (n =? 116)%N then Some (ascii_of_N 9)
  else None.

(** The code point that four hexadecimal digits denote. *)
Definition hex4_value (a b c d : ascii) : option N :=
  match hexval a, hexval b, hexval c, hexval d with
  | Some x, Some y, Some z, Some w => Some (((x * 16 + y) * 16 + z) * 16 + w)%N
  | _, _, _, _ => None
  end.

(** Text is modelled over the code points below 256; a [\uXXXX] escape that
    denotes another code point has no value in the model. *)
Definition outside_model : exn :=
  BackendError "NotModelled" "code point above 255".

(** [scanstring], strict: the text after an opening quote, up to the closing
    quote.  [start] is the place of the opening quote. *)
Fixpoint scanstring (start s : string) {struct s} : scanned string :=
  match s with
  | EmptyString => Malformed "Unterminated string starting at" start
  | String c rest =>
      if Ascii.eqb c dquote then Found EmptyString rest
      else if Ascii.eqb c "\" then
        match rest with
        | EmptyString => Malformed "Unterminated string starting at" start
        | String e rest' =>
            if Ascii.eqb e "u" then
              match rest' with
              | String h1 (String h2 (String h3 (String h4
                  (String _ _ as tail)))) =>
                  match hex4_value h1 h2 h3 h4 with
                  | Some n =>
                      if (n <? 256)%N
                      then scan_map (String (ascii_of_N n)) (scanstring start tail)
                      else Failed outside_model
                  | None => Malformed "Invalid \uXXXX escape" rest
                  end
              | _ => Malformed "Invalid \uXXXX escape" rest
              end
            else
              match unescape e with
              | Some c' => scan_map (String c') (scanstring start rest')
              | None => Malformed "Invalid \escape" s
              end
        end
      else if (N_of_ascii c <=? 31)%N
      then Malformed "Invalid control character at" s
      else scan_map (String c) (scanstring start rest)
  end.

Definition is_digit (c : ascii) : bool :=
  let n := N_of_ascii c in ((48 <=? n) && (n <=? 57))%N.

(** The longest run of digits at the front, and what follows it. *)
Fixpoint span_digits (s : string) : string * string :=
  match s with
  | EmptyString => (EmptyString, EmptyString)
  | String c rest =>
      if is_digit c
      then let (digits, after) := span_digits rest in (String c digits, after)
      else (EmptyString, s)
  end.

(** The three groups of the number pattern [NUMBER_RE], after the optional
    sign: the integer part is a zero or a digit from 1 to 9 followed by
    digits; the optional fraction is a dot followed by digits; the optional
    exponent is an [e] of either case, an optional sign and digits. *)
Definition match_integer (s : string) : option (string * string) :=
  match s with
  | EmptyString => None
  | String c rest =>
      if Ascii.eqb c "0" then Some ("0", rest)
      else if is_digit c
      then let (digits, after) := span_digits rest in Some (String c digits, after)
      else None
  end.

Definition match_fraction (s : string) : string * string :=
  match s with
  | String c (String d rest) =>
      if Ascii.eqb c "." && is_digit d
      then let (digits, after) := span_digits rest in
           (String c (String d digits), after)
      else (EmptyString, s)
  | _ => (EmptyString, s)
  end.

Definition match_exponent (s : string) : string * string :=
  match s with
  | EmptyString => (EmptyString, s)
  | String e rest =>
      if Ascii.eqb e "e" || Ascii.eqb e "E" then
        let (sign, rest') :=
          match rest with
          | String g r =>
              if Ascii.eqb g "+" || Ascii.eqb g "-"
              then (String g EmptyString, r) else (EmptyString, rest)
          | EmptyString => (EmptyString, rest)
          end in
        let (digits, after) := span_digits rest' in
        match digits with
        | EmptyString => (EmptyString, s)
        | _ => (String e (sign ++ digits), after)
        end
      else (EmptyString, s)
  end.

(** The number that a run of digits denotes, after the digits [acc]. *)
Fixpoint digits_value (digits : string) (acc : Z) : Z :=
  match digits with
  | EmptyString => acc
  | String c rest => digits_value rest (10 * acc + Z.of_N (N_of_ascii c - 48))
  end.

Definition int_text_too_long (digits : nat) : exn :=
  ValueError ("Exceeds the limit (4300 digits) for integer string conversion: "
                ++ "value has " ++ decimal_text (Z.of_nat digits)
                ++ " digits; use sys.set_int_max_str_digits() "
                ++ "to increase the limit").

Section json_decoder.

(** [float(text)] on the text of a number; taken as given, like
    [float.__repr__]. *)
Variable float_of_text : string -> spec_float.

(** A number at the front of [s]: an [int] when the text has neither a
    fraction nor an exponent, else a [float]. *)
Definition match_number (s : string) : scanned pyval :=
  let (negative, s1) :=
    match s with
    | String c rest => if Ascii.eqb c "-" then (true, rest) else (false, s)
    | EmptyString => (false, s)
    end in
  match match_integer s1 with
  | None => Stop s
  | Some (integer, s2) =>
      let (frac, s3) := match_fraction s2 in
      let (exp, s4) := match_exponent s3 in
      match (frac ++ exp)%string with
      | EmptyString =>
          if Nat.leb (String.length integer) INT_MAX_STR_DIGITS
          then Found (PInt (if negative then - digits_value integer 0
                            else digits_value integer 0)) s4
          else Failed (int_text_too_long (String.length integer))
      | _ =>
          Found (PFloat (float_of_text
                           ((if negative then "-" else "")
                              ++ integer ++ frac ++ exp))) s4
      end
  end.

(** The text after the prefix [p], when [s] starts with it. *)
Fixpoint after_prefix (p s : string) : option string :=
  match p with
  | EmptyString => Some s
  | String c p' =>
      match s with
      | String d s' => if Ascii.eqb c d then after_prefix p' s' else None
      | EmptyString => None
      end
  end.

(** The constants, then numbers. *)
Definition scan_scalar (s : string) : scanned pyval :=
  match after_prefix "null" s with
  | Some rest => Found PNone rest
  | None =>
  match after_prefix "true" s with
  | Some rest => Found (PBool true) rest
  | None =>
  match after_prefix "false" s with
  | Some rest => Found (PBool false) rest
  | None =>
  match after_prefix "NaN" s with
  | Some rest => Found (PFloat float_nan) rest
  | None =>
  match after_prefix "Infinity" s with
  | Some rest => Found (PFloat float_inf) rest
  | None =>
  match after_prefix "-Infinity" s with
  | Some rest => Found (PFloat float_neg_inf) rest
  | None => match_number s
  end end end end end end.

(** The recursion of the decoder is bounded by the length of the document;
    the bound is never reached (see [scan_once_fuel]). *)
Definition out_of_fuel : exn := BackendError "NotModelled" "out of fuel".

(** [scan_once], with the loops of [JSONArray] and [JSONObject]: the value
    that starts at the front of [s].  [parse_array] and [parse_object] start
    where an element, or a key, is expected, and hold what was read of the
    container so far. *)
Fixpoint scan_once (fuel : nat) (s : string) {struct fuel} : scanned pyval :=
  match fuel with
  | O => Failed out_of_fuel
  | S fuel' =>
      match s with
      | EmptyString => Stop s
      | String c rest =>
          if Ascii.eqb c dquote then scan_map PStr (scanstring s rest)
          else if Ascii.eqb c "{" then
            match skip_whitespace rest with
            | EmptyString => parse_object fuel' EmptyString []
            | String c' rest' as inner =>
                if Ascii.eqb c' "}" then Found (PDict []) rest'
                else parse_object fuel' inner []
            end
          else if Ascii.eqb c "[" then
            match skip_whitespace rest with
            | EmptyString => parse_array fuel' EmptyString []
            | String c' rest' as inner =>
                if Ascii.eqb c' "]" then Found (PList []) rest'
                else parse_array fuel' inner []
            end
          else scan_scalar s
      end
  end

with parse_array (fuel : nat) (s : string) (values : list pyval)
       {struct fuel} : scanned pyval :=
  match fuel with
  | O => Failed out_of_fuel
  | S fuel' =>
      match scan_once fuel' s with
      | Found value rest =>
          let values := (values ++ [value])%list in
          match skip_whitespace rest with
          | EmptyString => Malformed "Expecting ',' delimiter" EmptyString
          | String c rest' as here =>
              if Ascii.eqb c "]" then Found (PList values) rest'
              else if Ascii.eqb c ","
              then parse_array fuel' (skip_whitespace rest') values
              else Malformed "Expecting ',' delimiter" here
          end
      | Stop here => Stop here
      | Malformed msg here => Malformed msg here
      | Failed e => Failed e
      end
  end

with parse_object (fuel : nat) (s : string) (pairs : dict)
       {struct fuel} : scanned pyval :=
  match fuel with
  | O => Failed out_of_fuel
  | S fuel' =>
      match s with
      | EmptyString =>
          Malformed "Expecting property name enclosed in double quotes" s
      | String c rest =>
          if Ascii.eqb c dquote then
            match scanstring s rest with
            | Found key rest1 =>
                match skip_whitespace rest1 with
                | EmptyString => Malformed "Expecting ':' delimiter" EmptyString
                | String c1 rest2 as here =>
                    if Ascii.eqb c1 ":" then
                      match scan_once fuel' (skip_whitespace rest2) with
                      | Found value rest3 =>
                          let pairs := dict_setitem (PStr key) value pairs in
                          match skip_whitespace rest3 with
                          | EmptyString =>
                              Malformed "Expecting ',' delimiter" EmptyString
                          | String c3 rest4 as here3 =>
                              if Ascii.eqb c3 "}" then Found (PDict pairs) rest4
                              else if Ascii.eqb c3 ","
                              then parse_object fuel' (skip_whitespace rest4) pairs
                              else Malformed "Expecting ',' delimiter" here3
                          end
                      | Stop here' => Stop here'
                      | Malformed msg here' => Malformed msg here'
                      | Failed e => Failed e
                      end
                    else Malformed "Expecting ':' delimiter" here
                end
            | Stop here => Stop here
            | Malformed msg here => Malformed msg here
            | Failed e => Failed e
            end
          else Malformed "Expecting property name enclosed in double quotes" s
      end
  end.

(** The line and the column of the place where [before] ends. *)
Fixpoint line_column (before : string) (line column : nat) : nat * nat :=
  match before with
  | EmptyString => (line, column)
  | String c rest =>
      if (N_of_ascii c =? 10)%N then line_column rest (S line) 1
      else line_column rest line (S column)
  end.

(** [JSONDecodeError(msg, doc, pos)], [pos] being the place [here]. *)
Definition decode_error (msg doc here : string) : exn :=
  let pos := (String.length doc - String.length here)%nat in
  let (line, column) := line_column (substring 0 pos doc) 1 1 in
  JSONDecodeError (msg ++ ": line " ++ decimal_text (Z.of_nat line)
                       ++ " column " ++ decimal_text (Z.of_nat column)
                       ++ " (char " ++ decimal_text (Z.of_nat pos) ++ ")").

(** [json.loads(doc)] for a [str]. *)
Definition json_loads (doc : string) : outcome pyval :=
  match scan_once (2 * String.length doc + 1) (skip_whitespace doc) with
  | Found value rest =>
      match skip_whitespace rest with
      | EmptyString => Ok value
      | here => Raise (decode_error "Extra data" doc here)
      end
  | Stop here => Raise (decode_error "Expecting value" doc here)
  | Malformed msg here => Raise (decode_error msg doc here)
  | Failed e => Raise e
  end.

End json_decoder.

(** ** More notions used to state the properties *)

(** What [to_json_safe] returns: values of the JSON classes, with text keys
    in every object, finite floats, and integers within the safe range; the
    number under [__cbor_tag__] is the one integer copied as it is, and
    [undefined] is returned as it is. *)
Definition is_int (v : pyval) : bool :=
  match v with PInt _ => true | _ => false end.

Fixpoint wire_shaped (j : pyval) : bool :=
  match j with
  | PNone | PBool _ | PStr _ | PUndefined => true
  | PInt z => negb (beyond_safe z)
  | PFloat f => negb (isnan f) && negb (isinf f)
  | PList l => forallb wire_shaped l
  | PDict d =>
      forallb (fun kv =>
                 is_str (fst kv)
                 && ((key_eqb (fst kv) K_tag && is_int (snd kv))
                     || wire_shaped (snd kv))) d
  | PBytes _ | PByteArray _ | PTuple _ | PSet _ | PTag _ _ => false
  end.

(** The JSON values in which [from_json_safe] finds no marker: every object
    is a well-formed dictionary that no marker test selects. *)
Fixpoint marker_free (v : pyval) : bool :=
  match v with
  | PList l => forallb marker_free l
  | PDict d =>
      forallb (fun kv => marker_free (snd kv)) d
      && dict_wf d && negb (marker_shaped d)
  | _ => true
  end.




(** The JSON values that are no container: null, booleans and numbers. *)
Definition is_scalar (v : pyval) : bool :=
  match v with
  | PNone | PBool _ | PInt _ | PFloat _ => true
  | _ => false
  end.

(** Whether a handler action wrote a body. *)
Definition is_write (ev : http_event) : bool :=
  match ev with Write _ => true | _ => false end.

Definition response_head (status : Z) : list http_event :=
  [SendResponse status; SendHeader "Content-Type" "application/json"; EndHeaders].

(** An action that ended with one body, written last, or that raised before
    writing any. *)
Definition answered_or_raised (r : io unit) : Prop :=
  (exists status text, r = ((response_head status ++ [Write text])%list, Ok tt))
  \/ (exists e, r = ([], Raise e))
  \/ (exists status e, r = (response_head status, Raise e)).


Section decoder_notions.

Variable float_repr : spec_float -> string.
Variable float_of_text : string -> spec_float.






End decoder_notions.


(** * Properties *)

Open Scope list_scope.

Ltac ascii_cases c := destruct c as [[] [] [] [] [] [] [] []].

(** ** Integers and their decimal text *)

Lemma MAX_SAFE_INTEGER_value : MAX_SAFE_INTEGER = 2 ^ 53 - 1.
Proof. reflexivity. Qed.

Lemma parse_decimal_text (z : Z) : parse_int (decimal_text z) = Some z.
Proof.
  unfold parse_int, decimal_text.
  rewrite NilZero.isi.
  - simpl. now rewrite DecimalZ.of_to.
  - destruct z as [|p|p]; simpl; try discriminate.
    intros H. injection H as H. now apply DecimalPos.Unsigned.to_uint_nonnil in H.
  - destruct z as [|p|p]; simpl; try discriminate.
    intros H. injection H as H. now apply DecimalPos.Unsigned.to_uint_nonnil in H.
Qed.

Lemma beyond_safe_spec (z : Z) :
  beyond_safe z = false <-> - MAX_SAFE_INTEGER <= z <= MAX_SAFE_INTEGER.
Proof.
  unfold beyond_safe. rewrite orb_false_iff.
  rewrite Z.gtb_ltb, !Z.ltb_ge. lia.
Qed.

Lemma length_string_of_uint (d : Decimal.uint) :
  String.length (NilEmpty.string_of_uint d) = Decimal.nb_digits d.
Proof. induction d; simpl; congruence. Qed.

Lemma usize_nb_digits (d : Decimal.uint) :
  Unsigned.usize d = N.of_nat (Decimal.nb_digits d).
Proof.
  induction d; cbn [Unsigned.usize Decimal.nb_digits]; rewrite ?IHd; lia.
Qed.

Lemma of_lu_lt (d : Decimal.uint) :
  (Unsigned.of_lu d < 10 ^ Unsigned.usize d)%N.
Proof.
  induction d; cbn [Unsigned.of_lu Unsigned.usize];
    [reflexivity | rewrite N.pow_succ_r'; lia ..].
Qed.

Lemma int_digits_pos (p : positive) :
  int_digits (Zpos p) = Decimal.nb_digits (Pos.to_uint p).
Proof.
  unfold int_digits, decimal_text. simpl. unfold NilZero.string_of_uint.
  pose proof (Unsigned.to_uint_nonnil p).
  destruct (Pos.to_uint p) eqn:E; try congruence; rewrite <- E;
    apply length_string_of_uint.
Qed.

(** A positive number is below the power of ten that its digits count. *)
Lemma pos_lt_digits (p : positive) :
  (Npos p < 10 ^ N.of_nat (Decimal.nb_digits (Pos.to_uint p)))%N.
Proof.
  rewrite <- (Unsigned.of_to p), Unsigned.of_uint_alt.
  rewrite <- DecimalFacts.nb_digits_rev, <- usize_nb_digits. apply of_lu_lt.
Qed.

Lemma of_uint_head (d : Decimal.uint) :
  d <> Decimal.Nil -> Decimal.nzhead d = d ->
  (10 ^ N.of_nat (Nat.pred (Decimal.nb_digits d)) <= Pos.of_uint d)%N.
Proof.
  intros Hn Hz.
  destruct d; try congruence;
    try (cbn [Pos.of_uint Decimal.nb_digits Nat.pred];
         rewrite Unsigned.of_uint_acc_rev, <- usize_nb_digits; nia).
  exfalso. exact (DecimalFacts.nzhead_nonzero _ _ Hz).
Qed.

(** Its decimal text has no leading zero. *)
Lemma pos_ge_digits (p : positive) :
  (10 ^ N.of_nat (Nat.pred (Decimal.nb_digits (Pos.to_uint p))) <= Npos p)%N.
Proof.
  rewrite <- (Unsigned.of_to p). apply of_uint_head.
  - apply Unsigned.to_uint_nonnil.
  - pose proof (Unsigned.to_of (Pos.to_uint p)) as H.
    rewrite Unsigned.of_to in H. simpl in H.
    pose proof (Unsigned.to_uint_nonzero p) as Hz.
    unfold Decimal.unorm in H.
    destruct (Decimal.nzhead (Pos.to_uint p)) eqn:E; congruence.
Qed.

(** An integer has at most [n] digits exactly when its magnitude is below
    the [n]-th power of ten. *)
Lemma int_digits_spec (z : Z) (n : nat) :
  (0 < n)%nat ->
  ((int_digits z <= n)%nat <-> Z.abs z < 10 ^ Z.of_nat n).
Proof.
  intros Hn.
  assert (Hp : forall p, (int_digits (Zpos p) <= n)%nat
                         <-> Zpos p < 10 ^ Z.of_nat n).
  { intros p. rewrite int_digits_pos.
    pose proof (pos_lt_digits p) as Hu. pose proof (pos_ge_digits p) as Hl.
    set (k := Decimal.nb_digits (Pos.to_uint p)) in *.
    apply N2Z.inj_lt in Hu. apply N2Z.inj_le in Hl.
    rewrite N2Z.inj_pow, nat_N_Z in Hu, Hl. simpl in Hu, Hl.
    split; intros H.
    - eapply Z.lt_le_trans; [exact Hu|]. apply Z.pow_le_mono_r; lia.
    - destruct (Nat.le_gt_cases k n) as [|Hgt]; [assumption|exfalso].
      assert (10 ^ Z.of_nat n <= 10 ^ Z.of_nat (Nat.pred k))
        by (apply Z.pow_le_mono_r; lia).
      lia. }
  destruct z as [|p|p]; [|apply Hp|apply Hp].
  split; intros _; [apply Z.pow_pos_nonneg; lia|].
  change (int_digits 0) with 1%nat. lia.
Qed.

(** The conversion limit in terms of the magnitude. *)
Lemma printable_spec (z : Z) : printable z = true <-> Z.abs z < 10 ^ 4300.
Proof.
  unfold printable. rewrite Nat.leb_le.
  apply (int_digits_spec z INT_MAX_STR_DIGITS). unfold INT_MAX_STR_DIGITS. lia.
Qed.

Lemma str_int_Ok (z : Z) (text : string) :
  str_int z = Ok text <-> printable z = true /\ text = decimal_text z.
Proof.
  unfold str_int. destruct (printable z); split.
  - intros [= <-]. now split.
  - now intros [_ ->].
  - discriminate.
  - intros [H _]. discriminate.
Qed.

Lemma str_int_printable (z : Z) :
  printable z = true -> str_int z = Ok (decimal_text z).
Proof. unfold str_int. now intros ->. Qed.

Lemma str_int_Raise (z : Z) (e : exn) :
  str_int z = Raise e <-> printable z = false /\ e = int_too_long.
Proof.
  unfold str_int. destruct (printable z); split.
  - discriminate.
  - intros [H _]. discriminate.
  - intros [= <-]. now split.
  - now intros [_ ->].
Qed.

(** The integers of the safe range are far below the conversion limit. *)
Lemma safe_printable (z : Z) :
  - 2 ^ 64 <= z <= 2 ^ 64 -> printable z = true.
Proof.
  intros H. apply printable_spec.
  apply Z.lt_le_trans with (10 ^ 20); [lia|].
  apply Z.pow_le_mono_r; lia.
Qed.



Lemma int_to_json_safe (z : Z) (text : outcome string) (same : pyval) :
  beyond_safe z = false -> int_to_json z text same = Ok same.
Proof. unfold int_to_json, beyond_safe. now intros ->. Qed.

Lemma int_to_json_beyond (z : Z) (text : outcome string) (same : pyval) :
  beyond_safe z = true ->
  int_to_json z text same = (t <- text ;; Ok (PStr t)).
Proof. unfold int_to_json, beyond_safe. now intros ->. Qed.

Lemma bool_to_json (b : bool) (same : pyval) :
  int_to_json (Z.b2z b) (Ok (str_bool b)) same = Ok same.
Proof. now destruct b. Qed.

(** ** Comprehensions and dictionaries *)

Lemma bind_Ok {A B : Type} (r : outcome A) (k : A -> outcome B) (b : B) :
  bind r k = Ok b -> exists a, r = Ok a /\ k a = Ok b.
Proof. destruct r as [a|e]; simpl; [eauto | discriminate]. Qed.

Lemma mapM_ext {A B : Type} (f g : A -> outcome B) (l : list A) :
  Forall (fun a => f a = g a) l -> mapM f l = mapM g l.
Proof.
  induction 1 as [|a l Ha _ IH]; simpl; [reflexivity|].
  now rewrite Ha, IH.
Qed.

Lemma dict_contains_get (k : pyval) (d : dict) :
  dict_contains k d = match dict_get k d with Some _ => true | None => false end.
Proof.
  unfold dict_contains, dict_get.
  induction d as [|[k' v] d IH]; simpl; [reflexivity|].
  destruct (key_eqb k' k); simpl; [reflexivity | exact IH].
Qed.

Lemma dict_getitem_get (name : string) (v : pyval) (d : dict) :
  dict_get (PStr name) d = Some v -> dict_getitem name d = Ok v.
Proof. unfold dict_getitem. now intros ->. Qed.

Lemma dict_setitem_fresh (k v : pyval) (d : dict) :
  dict_contains k d = false -> dict_setitem k v d = d ++ [(k, v)].
Proof.
  unfold dict_contains.
  induction d as [|[k' v'] d IH]; simpl; [reflexivity|].
  destruct (key_eqb k' k); simpl; [discriminate|].
  intros H. now rewrite IH.
Qed.

Lemma keys_distinct_app (d : dict) (k v : pyval) (d' : dict) :
  keys_distinct (d ++ (k, v) :: d') = true ->
  dict_contains k d = false /\ keys_distinct ((d ++ [(k, v)]) ++ d') = true.
Proof.
  rewrite <- app_assoc. simpl. intros H. split; [|exact H].
  unfold dict_contains.
  induction d as [|[k' v'] d IH]; simpl in *; [reflexivity|].
  apply andb_true_iff in H as [H1 H2].
  rewrite forallb_app in H1. apply andb_true_iff in H1 as [_ H1].
  simpl in H1. apply andb_true_iff in H1 as [H1 _].
  apply negb_true_iff in H1. rewrite H1. simpl. now apply IH.
Qed.

(** With hashable keys that do not collide, a dictionary is built item by
    item, in the order of the source. *)
Lemma dict_build_fresh (key_of val_of : pyval -> outcome pyval)
  (items items' : dict) :
  Forall2 (fun kv kv' => key_of (fst kv) = Ok (fst kv')
                         /\ val_of (snd kv) = Ok (snd kv')) items items' ->
  forall result : dict,
    forallb (fun kv => hashable (fst kv)) items' = true ->
    keys_distinct (result ++ items') = true ->
    dict_build key_of val_of items result = Ok (PDict (result ++ items')).
Proof.
  induction 1 as [|[k v] [k' v'] items items' [Hk Hv] _ IH];
    intros result Hh Hd; simpl in *.
  - now rewrite app_nil_r.
  - rewrite Hk, Hv. simpl.
    apply andb_true_iff in Hh as [Hh1 Hh2].
    apply keys_distinct_app in Hd as [Hfresh Hd].
    unfold dict_setitem_hashed. rewrite Hh1. simpl.
    rewrite dict_setitem_fresh by assumption.
    rewrite IH by assumption. now rewrite <- app_assoc.
Qed.

Lemma dict_build_ext (key_of key_of' val_of val_of' : pyval -> outcome pyval)
  (items : dict) :
  Forall (fun kv => key_of (fst kv) = key_of' (fst kv)
                    /\ val_of (snd kv) = val_of' (snd kv)) items ->
  forall result : dict,
    dict_build key_of val_of items result = dict_build key_of' val_of' items result.
Proof.
  induction 1 as [|[k v] items [Hk Hv] _ IH]; intros result; simpl in *;
    [reflexivity|].
  rewrite Hk, Hv.
  destruct (key_of' k) as [k'|]; simpl; [|reflexivity].
  destruct (val_of' v) as [v'|]; simpl; [|reflexivity].
  destruct (dict_setitem_hashed k' v' result); simpl; [apply IH | reflexivity].
Qed.

Lemma dict_get_Forall2 (R : pyval -> pyval -> Prop) (k : pyval) (d d' : dict) :
  Forall2 (fun kv kv' => fst kv' = fst kv /\ R (snd kv) (snd kv')) d d' ->
  match dict_get k d, dict_get k d' with
  | Some v, Some v' => R v v'
  | None, None => True
  | _, _ => False
  end.
Proof.
  unfold dict_get.
  induction 1 as [|[k1 v1] [k2 v2] d d' [Hk Hv] _ IH]; simpl in *; [exact I|].
  subst k2. destruct (key_eqb k1 k); simpl; [exact Hv | exact IH].
Qed.

Lemma mapM_inv {A B : Type} (f : A -> outcome B) (Q : B -> bool) (l : list A) :
  Forall (fun a => forall b, f a = Ok b -> Q b = true) l ->
  forall l', mapM f l = Ok l' -> forallb Q l' = true.
Proof.
  induction 1 as [|a l Ha _ IH]; intros l' H; simpl in H.
  - now injection H as <-.
  - apply bind_Ok in H as (b & Hb & H). apply bind_Ok in H as (bs & Hbs & H).
    injection H as <-. simpl. now rewrite (Ha b Hb), (IH bs Hbs).
Qed.

Lemma mapM_total {A B : Type} (f : A -> outcome B) (Q : B -> bool) (l : list A) :
  Forall (fun a => exists b, f a = Ok b /\ Q b = true) l ->
  exists l', mapM f l = Ok l' /\ forallb Q l' = true.
Proof.
  induction 1 as [|a l (b & Hb & Hq) _ (bs & Hbs & Hqs)].
  - now exists [].
  - exists (b :: bs). simpl. now rewrite Hb, Hbs, Hq, Hqs.
Qed.

Lemma dict_setitem_forallb (R : pyval -> bool) (Q : pyval -> bool)
  (k v : pyval) (d : dict) :
  forallb (fun kv => R (fst kv) && Q (snd kv)) d = true ->
  R k = true -> Q v = true ->
  forallb (fun kv => R (fst kv) && Q (snd kv)) (dict_setitem k v d) = true.
Proof.
  intros Hd Hk Hv. induction d as [|[k' v'] d IH]; simpl in *.
  - now rewrite Hk, Hv.
  - apply andb_true_iff in Hd as [H1 H2].
    destruct (key_eqb k' k); simpl.
    + apply andb_true_iff in H1 as [H1 _]. now rewrite H1, Hv.
    + now rewrite H1, IH.
Qed.

(** What holds of the keys and of the values that are stored holds of the
    dictionary that is built. *)
Lemma dict_build_inv (key_of val_of : pyval -> outcome pyval)
  (R Q : pyval -> bool) (items : dict) :
  Forall (fun kv =>
            (forall k', key_of (fst kv) = Ok k' -> R k' = true)
            /\ (forall v', val_of (snd kv) = Ok v' -> Q v' = true)) items ->
  forall (result : dict) (w : pyval),
    forallb (fun kv => R (fst kv) && Q (snd kv)) result = true ->
    dict_build key_of val_of items result = Ok w ->
    exists d, w = PDict d
              /\ forallb (fun kv => R (fst kv) && Q (snd kv)) d = true.
Proof.
  induction 1 as [|[k v] items [Hk Hv] _ IH]; intros result w Hr H;
    simpl in H.
  - injection H as <-. eauto.
  - apply bind_Ok in H as (k' & Hk' & H). apply bind_Ok in H as (v' & Hv' & H).
    apply bind_Ok in H as (r & Hset & H).
    unfold dict_setitem_hashed in Hset.
    destruct (hashable k'); [|discriminate]. injection Hset as <-.
    apply (IH _ _ (dict_setitem_forallb R Q k' v' result Hr (Hk k' Hk') (Hv v' Hv')) H).
Qed.

(** When every key and every value translates, and the keys are hashable,
    the dictionary is built. *)
Lemma dict_build_total (key_of val_of : pyval -> outcome pyval)
  (R Q : pyval -> bool) (items : dict) :
  Forall (fun kv =>
            (exists k', key_of (fst kv) = Ok k' /\ R k' = true
                        /\ hashable k' = true)
            /\ (exists v', val_of (snd kv) = Ok v' /\ Q v' = true)) items ->
  forall result : dict,
    forallb (fun kv => R (fst kv) && Q (snd kv)) result = true ->
    exists d, dict_build key_of val_of items result = Ok (PDict d)
              /\ forallb (fun kv => R (fst kv) && Q (snd kv)) d = true.
Proof.
  induction 1 as [|[k v] items [(k' & Hk & HR & Hh) (v' & Hv & HQ)] _ IH];
    intros result Hr; simpl in *.
  - eauto.
  - rewrite Hk, Hv. simpl. unfold dict_setitem_hashed. rewrite Hh. simpl.
    apply IH. now apply dict_setitem_forallb.
Qed.

(** Building from a list of items that is split in two. *)
Lemma dict_build_app (key_of val_of : pyval -> outcome pyval)
  (items items' : dict) :
  forall result result' : dict,
    dict_build key_of val_of items result = Ok (PDict result') ->
    dict_build key_of val_of (items ++ items') result
    = dict_build key_of val_of items' result'.
Proof.
  induction items as [|[k v] items IH]; intros result result' H; simpl in *.
  - now injection H as <-.
  - destruct (key_of k) as [k'|]; [|discriminate].
    destruct (val_of v) as [v'|]; [|discriminate].
    cbn [bind] in *.
    destruct (dict_setitem_hashed k' v' result) as [r|]; [|discriminate].
    cbn [bind] in *. now apply IH.
Qed.

(** Assigning to a key that is present replaces the value where it is. *)
Lemma dict_setitem_hit (k k' v v' : pyval) (d d' : dict) :
  dict_contains k d = false -> key_eqb k' k = true ->
  dict_setitem k v (d ++ (k', v') :: d') = d ++ (k', v) :: d'.
Proof.
  unfold dict_contains. intros Hd Hk.
  induction d as [|[k0 v0] d IH]; simpl in *.
  - now rewrite Hk.
  - destruct (key_eqb k0 k); [discriminate|]. simpl in Hd. now rewrite IH.
Qed.

Lemma keys_distinct_keys (d d' : dict) :
  map fst d = map fst d' -> keys_distinct d = keys_distinct d'.
Proof.
  revert d'. induction d as [|[k v] d IH]; intros [|[k' v'] d'] H;
    try discriminate; [reflexivity|].
  simpl in H. injection H as <- H. simpl. rewrite (IH d' H). f_equal.
  clear IH. revert d' H. induction d as [|[k1 v1] d IH]; intros [|[k2 v2] d'] H;
    try discriminate; [reflexivity|].
  simpl in H. injection H as <- H. simpl. now rewrite (IH d' H).
Qed.

Lemma keys_distinct_prefix (d d' : dict) :
  keys_distinct (d ++ d') = true -> keys_distinct d = true.
Proof.
  induction d as [|[k v] d IH]; simpl; [reflexivity|].
  intros H. apply andb_true_iff in H as [H1 H2].
  rewrite forallb_app in H1. apply andb_true_iff in H1 as [H1 _].
  now rewrite H1, IH.
Qed.

(** A dictionary that was built: every key and every value was translated. *)
Lemma dict_build_values (key_of val_of : pyval -> outcome pyval) (items : dict) :
  forall (result : dict) (w : pyval),
    dict_build key_of val_of items result = Ok w ->
    exists items',
      Forall2 (fun kv kv' => key_of (fst kv) = Ok (fst kv')
                             /\ val_of (snd kv) = Ok (snd kv')) items items'.
Proof.
  induction items as [|[k v] items IH]; intros result w H; simpl in H.
  - exists []. constructor.
  - apply bind_Ok in H as (k' & Hk & H). apply bind_Ok in H as (v' & Hv & H).
    apply bind_Ok in H as (r & _ & H). destruct (IH r w H) as [items' H'].
    exists ((k', v') :: items'). constructor; [split|]; assumption.
Qed.

Lemma mapM_Forall2 {A B : Type} (f : A -> outcome B) (l : list A) (l' : list B) :
  mapM f l = Ok l' <-> Forall2 (fun a b => f a = Ok b) l l'.
Proof.
  revert l'. induction l as [|a l IH]; intros l'; simpl; split; intros H.
  - injection H as <-. constructor.
  - now inversion H.
  - apply bind_Ok in H as (b & Hb & H). apply bind_Ok in H as (bs & Hbs & H).
    injection H as <-. constructor; [exact Hb | now apply IH].
  - inversion H as [|a' b l0 bs Hb Hbs]; subst.
    apply IH in Hbs. now rewrite Hb, Hbs.
Qed.

(** ** Hexadecimal text *)

(** Induction on a text two characters at a time. *)
Lemma string_ind2 (P : string -> Prop) :
  P EmptyString ->
  (forall c, P (String c EmptyString)) ->
  (forall c d s, P s -> P (String d s) -> P (String c (String d s))) ->
  forall s, P s.
Proof.
  intros H0 H1 H2 s.
  assert (H : P s /\ forall c, P (String c s)).
  { induction s as [|d s [IHs IHc]]; split; auto. }
  exact (proj1 H).
Qed.

Lemma hex_pair_scan (x : byte) (rest : string) (pos : nat) :
  fromhex_scan
    (String (hex_digit (Byte.to_N x / 16))
       (String (hex_digit (Byte.to_N x mod 16)) rest)) pos
  = (bs <- fromhex_scan rest (S (S pos)) ;; Ok (x :: bs)).
Proof. destruct x; reflexivity. Qed.

Lemma hex_pair_ascii (x : byte) (rest : string) (pos : nat) :
  first_non_ascii
    (String (hex_digit (Byte.to_N x / 16))
       (String (hex_digit (Byte.to_N x mod 16)) rest)) pos
  = first_non_ascii rest (S (S pos)).
Proof. destruct x; reflexivity. Qed.

(** [bytes.fromhex(b.hex()) == b] *)
Lemma fromhex_hex (b : list byte) : fromhex_str (bytes_hex b) = Ok b.
Proof.
  unfold fromhex_str.
  assert (Ha : forall pos, first_non_ascii (bytes_hex b) pos = None).
  { induction b as [|x b IH]; intros pos; [reflexivity|].
    cbn [bytes_hex]. now rewrite hex_pair_ascii. }
  rewrite Ha. clear Ha. generalize 0%nat.
  induction b as [|x b IH]; intros pos; [reflexivity|].
  cbn [bytes_hex]. now rewrite hex_pair_scan, IH.
Qed.

Lemma hexval_not_space (c : ascii) :
  is_hex_digit c = true -> is_space c = false.
Proof. ascii_cases c; (reflexivity || discriminate). Qed.

Lemma hexval_ascii (c : ascii) :
  is_hex_digit c = true -> (128 <=? N_of_ascii c)%N = false.
Proof. ascii_cases c; (reflexivity || discriminate). Qed.

Lemma is_hex_digit_Some (c : ascii) (n : N) :
  hexval c = Some n -> is_hex_digit c = true.
Proof. unfold is_hex_digit. now intros ->. Qed.

(** A text that decodes under the specification's reading is decoded the
    same by [bytes.fromhex]. *)
Lemma fromhex_decode_some (s : string) :
  forall b, hex_decode s = Some b -> fromhex_str s = Ok b.
Proof.
  unfold fromhex_str.
  assert (Ha : forall b, hex_decode s = Some b ->
                         forall pos, first_non_ascii s pos = None).
  { induction s as [| |c d s IH _] using string_ind2; intros b Hb pos;
      [reflexivity | discriminate |].
    cbn [hex_decode] in Hb.
    destruct (hexval c) as [hi|] eqn:Hc; [|discriminate].
    destruct (hexval d) as [lo|] eqn:Hd; [|discriminate].
    destruct (hex_decode s) as [bs|]; [|discriminate].
    cbn [first_non_ascii].
    rewrite (hexval_ascii c), (hexval_ascii d) by eauto using is_hex_digit_Some.
    eauto. }
  intros b Hb. rewrite (Ha b Hb). clear Ha. revert b Hb. generalize 0%nat.
  induction s as [| |c d s IH _] using string_ind2; intros pos b Hb.
  - now injection Hb as <-.
  - discriminate.
  - cbn [hex_decode] in Hb. cbn [fromhex_scan].
    destruct (hexval c) as [hi|] eqn:Hc; [|discriminate].
    destruct (hexval d) as [lo|] eqn:Hd; [|discriminate].
    destruct (hex_decode s) as [bs|] eqn:Hs; [|discriminate].
    injection Hb as <-.
    rewrite (hexval_not_space c) by eauto using is_hex_digit_Some.
    now rewrite (IH _ bs eq_refl).
Qed.

(** A text without white space that does not decode under the
    specification's reading makes [bytes.fromhex] raise [ValueError]. *)
Lemma fromhex_decode_none (s : string) :
  no_space s = true -> hex_decode s = None ->
  exists pos, fromhex_str s = Raise (fromhex_error pos).
Proof.
  unfold fromhex_str. destruct (first_non_ascii s 0) as [p|]; [eauto|].
  generalize 0%nat.
  induction s as [| |c d s IH _] using string_ind2; intros pos Hn Hb.
  - discriminate.
  - cbn [no_space string_forallb] in Hn. apply andb_true_iff in Hn as [Hc _].
    apply negb_true_iff in Hc. cbn [fromhex_scan]. rewrite Hc.
    destruct (hexval c); eauto.
  - cbn [no_space string_forallb] in Hn.
    apply andb_true_iff in Hn as [Hc Hn]. apply andb_true_iff in Hn as [_ Hn].
    apply negb_true_iff in Hc. cbn [fromhex_scan hex_decode] in *. rewrite Hc.
    destruct (hexval c) as [hi|]; [|eauto].
    destruct (hexval d) as [lo|]; [|eauto].
    destruct (hex_decode s) as [bs|] eqn:Hs; [discriminate|].
    destruct (IH (S (S pos)) Hn eq_refl) as [p Hp]. rewrite Hp. simpl. eauto.
Qed.

(** The specification's reading succeeds exactly on texts of even length
    made of hexadecimal digits. *)
Lemma hex_decode_defined (s : string) :
  match hex_decode s with Some _ => true | None => false end
  = Nat.even (String.length s) && string_forallb is_hex_digit s.
Proof.
  induction s as [| |c d s IH _] using string_ind2; [reflexivity | |].
  - cbn. reflexivity.
  - cbn [hex_decode String.length string_forallb Nat.even].
    unfold is_hex_digit at 1 2.
    destruct (hexval c); [|now rewrite andb_false_r].
    destruct (hexval d); [|now rewrite andb_false_r].
    cbn [andb]. rewrite <- IH. now destruct (hex_decode s).
Qed.

Lemma fromhex_scan_cons (c : ascii) (rest : string) (pos : nat) :
  fromhex_scan (String c rest) pos
  = if is_space c then fromhex_scan rest (S pos)
    else match hexval c with
         | None => Raise (fromhex_error pos)
         | Some hi =>
             match rest with
             | EmptyString => Raise (fromhex_error (S pos))
             | String d rest' =>
                 match hexval d with
                 | None => Raise (fromhex_error (S pos))
                 | Some lo =>
                     bs <- fromhex_scan rest' (S (S pos)) ;;
                     Ok (byte_of_nibbles hi lo :: bs)
                 end
             end
         end.
Proof. reflexivity. Qed.

(** [bytes.fromhex] reads the digits of either case alike. *)
Lemma fromhex_case (f : ascii -> ascii) :
  (forall c, hexval (f c) = hexval c) ->
  (forall c, is_space (f c) = is_space c) ->
  (forall c, (128 <=? N_of_ascii (f c))%N = (128 <=? N_of_ascii c)%N) ->
  forall s, fromhex_str (string_map f s) = fromhex_str s.
Proof.
  intros Hh Hs Ha s. unfold fromhex_str.
  assert (Hf : forall pos,
             first_non_ascii (string_map f s) pos = first_non_ascii s pos).
  { induction s as [|c s IH]; intros pos; [reflexivity|].
    cbn [string_map first_non_ascii]. now rewrite Ha, IH. }
  rewrite Hf. destruct (first_non_ascii s 0); [reflexivity|].
  clear Hf. generalize 0%nat.
  induction s as [| |c d s IH1 IH2] using string_ind2; intros pos.
  - reflexivity.
  - cbn [string_map fromhex_scan]. now rewrite Hs, Hh.
  - change (string_map f (String c (String d s)))
      with (String (f c) (String (f d) (string_map f s))).
    rewrite (fromhex_scan_cons (f c)), (fromhex_scan_cons c), Hs, !Hh.
    destruct (is_space c).
    + apply (IH2 (S pos)).
    + destruct (hexval c); [|reflexivity].
      destruct (hexval d); [|reflexivity].
      now rewrite IH1.
Qed.

Lemma fromhex_upper (s : string) :
  fromhex_str (string_map ascii_upper s) = fromhex_str s.
Proof. apply fromhex_case; intros c; ascii_cases c; reflexivity. Qed.

Lemma fromhex_lower (s : string) :
  fromhex_str (string_map ascii_lower s) = fromhex_str s.
Proof. apply fromhex_case; intros c; ascii_cases c; reflexivity. Qed.

(** ** The integer boundary *)

(** C3: [to_json_safe] returns an Integer as a number exactly when it lies
    in the closed range from -(2^53-1) to 2^53-1; outside that range it
    returns the decimal text, as long as the integer has at most 4300 digits,
    and raises [ValueError] beyond, where [str] refuses the conversion.  The
    four boundary values behave as listed, and [convert_types] draws the same
    boundary. *)
Theorem integer_boundary (float_repr : spec_float -> string) (z : Z) :
  (to_json_safe float_repr (PInt z) = Ok (PInt z)
   <-> - (2 ^ 53 - 1) <= z <= 2 ^ 53 - 1)
  /\ (to_json_safe float_repr (PInt z) = Ok (PStr (decimal_text z))
      <-> ~ (- (2 ^ 53 - 1) <= z <= 2 ^ 53 - 1) /\ Z.abs z < 10 ^ 4300)
  /\ (to_json_safe float_repr (PInt z) = Raise int_too_long
      <-> 10 ^ 4300 <= Z.abs z)
  /\ to_json_safe float_repr (PInt 9007199254740991) = Ok (PInt 9007199254740991)
  /\ to_json_safe float_repr (PInt (-9007199254740991))
     = Ok (PInt (-9007199254740991))
  /\ to_json_safe float_repr (PInt 9007199254740992)
     = Ok (PStr "9007199254740992")
  /\ to_json_safe float_repr (PInt (-9007199254740992))
     = Ok (PStr "-9007199254740992")
  /\ convert_types (PInt z) = to_json_safe float_repr (PInt z).
Proof.
  rewrite <- MAX_SAFE_INTEGER_value. cbn [to_json_safe convert_types].
  rewrite <- beyond_safe_spec.
  assert (Hbig : 10 ^ 4300 <= Z.abs z -> beyond_safe z = true).
  { intros H. destruct (beyond_safe z) eqn:E; [reflexivity|].
    apply beyond_safe_spec in E. unfold MAX_SAFE_INTEGER in E.
    assert (10 ^ 20 <= 10 ^ 4300) by (apply Z.pow_le_mono_r; lia). lia. }
  pose proof (printable_spec z) as Hp.
  refine (conj _ (conj _ (conj _
            (conj eq_refl (conj eq_refl (conj eq_refl (conj eq_refl eq_refl))))))).
  - destruct (beyond_safe z) eqn:E.
    + rewrite int_to_json_beyond by assumption.
      split; [|discriminate]. now destruct (str_int z).
    + rewrite int_to_json_safe by assumption. now split.
  - destruct (beyond_safe z) eqn:E.
    + rewrite int_to_json_beyond by assumption. unfold str_int.
      destruct (printable z); cbn [bind]; split.
      * intros _. split; [discriminate | now apply Hp].
      * reflexivity.
      * discriminate.
      * intros [_ H]. apply Hp in H. discriminate.
    + rewrite int_to_json_safe by assumption.
      split; [discriminate | intros [H _]; now contradiction H].
  - destruct (beyond_safe z) eqn:E.
    + rewrite int_to_json_beyond by assumption. unfold str_int.
      destruct (printable z); cbn [bind]; split.
      * discriminate.
      * intros H. assert (Z.abs z < 10 ^ 4300) by now apply Hp. lia.
      * intros _. destruct (Z.le_gt_cases (10 ^ 4300) (Z.abs z)) as [H|H];
          [exact H|]. apply Hp in H. discriminate.
      * reflexivity.
    + rewrite int_to_json_safe by assumption.
      split; [discriminate | intros H; apply Hbig in H; discriminate].
Qed.

(** ** Plain values on the way back *)

(** C7: [from_json_safe] returns a number, a string or a boolean as it is;
    in particular the decimal text of an integer stays a string, also the
    one [to_json_safe] produced for an Integer outside the safe range. *)
Theorem primitives_pass_through
  (z : Z) (f : spec_float) (s : string) (b : bool) :
  from_json_safe (PInt z) = Ok (PInt z)
  /\ from_json_safe (PFloat f) = Ok (PFloat f)
  /\ from_json_safe (PStr s) = Ok (PStr s)
  /\ from_json_safe (PBool b) = Ok (PBool b)
  /\ from_json_safe (PStr (decimal_text z)) = Ok (PStr (decimal_text z))
  /\ (forall float_repr text,
        to_json_safe float_repr (PInt z) = Ok (PStr text) ->
        from_json_safe (PStr text) = Ok (PStr text)
        /\ text = decimal_text z /\ beyond_safe z = true).
Proof.
  repeat split.
  - revert H. cbn [to_json_safe]. unfold int_to_json. fold (beyond_safe z).
    destruct (beyond_safe z); [|discriminate].
    destruct (str_int z) as [t|] eqn:E; [|discriminate].
    intros [= <-]. now apply str_int_Ok in E.
  - revert H. cbn [to_json_safe]. unfold int_to_json. fold (beyond_safe z).
    now destruct (beyond_safe z).
Qed.

(** ** Undefined *)

(** C6, the code at [cbor2.undefined]: [to_json_safe] (and [convert_types])
    return the object itself, which [json.dumps] cannot serialise, while
    [from_json_safe] does read the undefined marker. *)
Theorem undefined_left_unmarked (float_repr : spec_float -> string) :
  to_json_safe float_repr PUndefined = Ok PUndefined
  /\ convert_types PUndefined = Ok PUndefined
  /\ is_ok (json_dumps float_repr PUndefined) = false
  /\ from_json_safe (PDict [(K_undefined, PBool true)]) = Ok PUndefined.
Proof. repeat split. Qed.

(** ** Marker objects on the way back *)

Lemma from_json_safe_dict (d : dict) :
  from_json_safe (PDict d)
  = if dict_contains K_bytes d then
      h <- dict_getitem "__cbor_bytes__" d ;; b <- bytes_fromhex h ;; Ok (PBytes b)
    else
      match float_marker_of d with
      | Some f => Ok (PFloat f)
      | None =>
          if dict_contains K_tag d && dict_contains K_value d then
            t <- dict_getitem "__cbor_tag__" d ;;
            x <- getitem_with from_json_safe "__cbor_value__" d ;;
            CBORTag t x
          else if dict_contains K_undefined d then Ok PUndefined
          else dict_build (fun k => Ok k) from_json_safe d []
      end.
Proof. reflexivity. Qed.

Lemma same_keys_forallb (g : pyval -> bool) (R : pyval -> pyval -> Prop)
  (d d' : dict) :
  Forall2 (fun kv kv' => fst kv' = fst kv /\ R (snd kv) (snd kv')) d d' ->
  forallb (fun kv => g (fst kv)) d' = forallb (fun kv => g (fst kv)) d.
Proof.
  induction 1 as [|[k v] [k' v'] d d' [Hk _] _ IH]; simpl in *; [reflexivity|].
  now rewrite Hk, IH.
Qed.

Lemma same_keys_distinct (R : pyval -> pyval -> Prop) (d d' : dict) :
  Forall2 (fun kv kv' => fst kv' = fst kv /\ R (snd kv) (snd kv')) d d' ->
  keys_distinct d' = keys_distinct d.
Proof.
  induction 1 as [|[k v] [k' v'] d d' [Hk Hv] H IH]; simpl in *; [reflexivity|].
  subst k'. rewrite IH.
  now rewrite (same_keys_forallb (fun x => negb (key_eqb k x)) R d d' H).
Qed.

(** A well-formed dictionary that no marker test selects is translated item
    by item, keys untouched. *)
Lemma from_json_safe_plain_map (d d' : dict) :
  marker_shaped d = false ->
  dict_wf d = true ->
  Forall2 (fun kv kv' => fst kv' = fst kv
                         /\ from_json_safe (snd kv) = Ok (snd kv')) d d' ->
  from_json_safe (PDict d) = Ok (PDict d').
Proof.
  unfold marker_shaped, dict_wf. intros Hm Hwf H.
  apply orb_false_iff in Hm as [Hm Hu]. apply orb_false_iff in Hm as [Hm Ht].
  apply orb_false_iff in Hm as [Hb Hf].
  apply andb_true_iff in Hwf as [Hh Hd].
  rewrite from_json_safe_dict, Hb, Ht, Hu.
  destruct (float_marker_of d); [discriminate|].
  apply (dict_build_fresh (fun k => Ok k) from_json_safe d d').
  - eapply Forall2_impl; [|exact H]. intros [k v] [k' v'] [Hk Hv]; simpl in *.
    now subst k'.
  - now rewrite (same_keys_forallb hashable
                   (fun v v' => from_json_safe v = Ok v') d d' H).
  - simpl. now rewrite (same_keys_distinct
                          (fun v v' => from_json_safe v = Ok v') d d' H).
Qed.

Lemma float_marker_of_get (d : dict) (x : pyval) :
  dict_get K_float d = Some x -> float_marker_of d = float_marker x.
Proof.
  intros H. unfold float_marker_of. now rewrite dict_contains_get, H.
Qed.

Lemma float_marker_unrecognised (s : string) :
  s <> "NaN" -> s <> "Infinity" -> s <> "-Infinity" ->
  float_marker (PStr s) = None.
Proof.
  intros H1 H2 H3. unfold float_marker.
  apply String.eqb_neq in H1, H2, H3. now rewrite H1, H2, H3.
Qed.

(** C5, counterexample: an object whose float marker holds an unrecognised
    string is not rejected; it comes back as an ordinary map. *)
Lemma unknown_float_marker_is_a_map :
  from_json_safe (PDict [(K_float, PStr "foo")])
  = Ok (PDict [(K_float, PStr "foo")]).
Proof. reflexivity. Qed.

(** C5, as the code has it: on an object that carries the float marker key
    and no bytes marker key, the three recognised strings give NaN, +Infinity
    and -Infinity; any other string raises nothing and the object falls
    through to the later rules: the tag rule when both tag keys are there,
    else the undefined rule when its key is there, else the object comes back
    as a map that still holds the marker entry. *)
Theorem float_marker_decoding (d : dict) (x : pyval) :
  dict_contains K_bytes d = false ->
  dict_get K_float d = Some x ->
  (x = PStr "NaN" -> from_json_safe (PDict d) = Ok (PFloat float_nan))
  /\ (x = PStr "Infinity" -> from_json_safe (PDict d) = Ok (PFloat float_inf))
  /\ (x = PStr "-Infinity" ->
      from_json_safe (PDict d) = Ok (PFloat float_neg_inf))
  /\ (forall s : string,
        x = PStr s -> s <> "NaN" -> s <> "Infinity" -> s <> "-Infinity" ->
        (dict_contains K_tag d && dict_contains K_value d = true ->
         from_json_safe (PDict d)
         = (t <- dict_getitem "__cbor_tag__" d ;;
            v <- getitem_with from_json_safe "__cbor_value__" d ;;
            CBORTag t v))
        /\ (dict_contains K_tag d && dict_contains K_value d = false ->
            dict_contains K_undefined d = true ->
            from_json_safe (PDict d) = Ok PUndefined)
        /\ (forall d' : dict,
              dict_contains K_tag d && dict_contains K_value d = false ->
              dict_contains K_undefined d = false ->
              dict_wf d = true ->
              Forall2 (fun kv kv' =>
                         fst kv' = fst kv
                         /\ from_json_safe (snd kv) = Ok (snd kv')) d d' ->
              from_json_safe (PDict d) = Ok (PDict d')
              /\ dict_get K_float d' = Some (PStr s))).
Proof.
  intros Hb Hx.
  assert (Hrec : forall f, float_marker x = Some f ->
                           from_json_safe (PDict d) = Ok (PFloat f)).
  { intros f Hf.
    now rewrite from_json_safe_dict, Hb, (float_marker_of_get d x Hx), Hf. }
  split; [|split; [|split]]; try (intros ->; now apply Hrec).
  intros s -> H1 H2 H3.
  pose proof (float_marker_unrecognised s H1 H2 H3) as Hnone.
  pose proof (float_marker_of_get d _ Hx) as Hof. rewrite Hnone in Hof.
  split; [|split].
  - intros Ht. now rewrite from_json_safe_dict, Hb, Hof, Ht.
  - intros Ht Hu. now rewrite from_json_safe_dict, Hb, Hof, Ht, Hu.
  - intros d' Ht Hu Hwf H. split.
    + apply from_json_safe_plain_map; try assumption.
      unfold marker_shaped. now rewrite Hb, Ht, Hu, Hof.
    + pose proof (dict_get_Forall2 (fun v v' => from_json_safe v = Ok v')
                    K_float d d' H) as Hg.
      rewrite Hx in Hg.
      destruct (dict_get K_float d') as [v'|]; [|contradiction].
      simpl in Hg. now injection Hg as <-.
Qed.

Lemma float_marker_decoding_witness :
  from_json_safe (PDict [(K_tag, PInt 1); (K_float, PStr "-Infinity")])
  = Ok (PFloat float_neg_inf).
Proof.
  exact (proj1 (proj2 (proj2
           (float_marker_decoding
              [(K_tag, PInt 1); (K_float, PStr "-Infinity")]
              (PStr "-Infinity") eq_refl eq_refl))) eq_refl).
Defined.

(** C8, counterexample: a bytes marker of three characters, the last one a
    space, is decoded to one byte instead of being rejected. *)
Lemma bytes_marker_accepts_white_space :
  from_json_safe (PDict [(K_bytes, PStr "00 ")]) = Ok (PBytes [x00])
  /\ Nat.even (String.length "00 ") = false
  /\ string_forallb is_hex_digit "00 " = false.
Proof. repeat split. Qed.

(** C8, as the code has it: an object that carries the bytes marker with a
    string is handed to [bytes.fromhex], whatever else it carries.  A text of
    even length made of hexadecimal digits gives the bytes its pairs denote;
    a text without white space that has odd length or a character that is no
    hexadecimal digit raises [ValueError]; upper and lower case digits read
    alike.  (White space in front of a pair is skipped.) *)
Theorem bytes_marker_decoding (d : dict) (s : string) :
  dict_get K_bytes d = Some (PStr s) ->
  from_json_safe (PDict d) = (b <- fromhex_str s ;; Ok (PBytes b))
  /\ (forall b, hex_decode s = Some b ->
                from_json_safe (PDict d) = Ok (PBytes b))
  /\ (no_space s = true -> hex_decode s = None ->
      exists pos, from_json_safe (PDict d) = Raise (fromhex_error pos))
  /\ (hex_decode s = None
      <-> Nat.even (String.length s) && string_forallb is_hex_digit s = false)
  /\ fromhex_str (string_map ascii_upper s) = fromhex_str s
  /\ fromhex_str (string_map ascii_lower s) = fromhex_str s.
Proof.
  intros Hg.
  assert (E : from_json_safe (PDict d) = (b <- fromhex_str s ;; Ok (PBytes b))).
  { rewrite from_json_safe_dict, dict_contains_get, Hg.
    now rewrite (dict_getitem_get "__cbor_bytes__" _ _ Hg). }
  rewrite E.
  refine (conj eq_refl (conj _ (conj _ (conj _
            (conj (fromhex_upper s) (fromhex_lower s)))))).
  - intros b Hb. now rewrite (fromhex_decode_some s b Hb).
  - intros Hn Hb. destruct (fromhex_decode_none s Hn Hb) as [pos Hp].
    exists pos. now rewrite Hp.
  - rewrite <- hex_decode_defined. destruct (hex_decode s); split; congruence.
Qed.

Lemma bytes_marker_decoding_witness :
  from_json_safe (PDict [(K_bytes, PStr "DEadbeef")])
  = Ok (PBytes [xde; xad; xbe; xef]).
Proof.
  exact (proj1 (proj2
           (bytes_marker_decoding [(K_bytes, PStr "DEadbeef")] "DEadbeef"
              eq_refl)) [xde; xad; xbe; xef] eq_refl).
Defined.

(** ** Maps on the way out *)

Lemma to_json_safe_dict (float_repr : spec_float -> string) (d : dict) :
  to_json_safe float_repr (PDict d)
  = dict_build (map_key float_repr) (to_json_safe float_repr) d [].
Proof. reflexivity. Qed.

(** ** The service envelopes *)

(** C4: whatever the input, the codec and the clock, [decode_cbor] and
    [encode_cbor] return an envelope and raise nothing.  When every step of
    the request succeeds the envelope is the success one, with [result] (or
    [hex]) and [duration_ms]; when a step raises, be it [bytes.fromhex], the
    codec or the translation, the envelope holds [success: false] and the
    message of the exception under [error], and nothing else. *)
Theorem service_returns_envelope
  (float_repr : spec_float -> string)
  (cbor2_loads : list byte -> outcome pyval)
  (cbor2_dumps : pyval -> outcome (list byte))
  (start_time now : spec_float) (input : pyval) :
  (exists envelope,
      decode_cbor float_repr cbor2_loads start_time now input = Ok envelope
      /\ match (data <- bytes_fromhex input ;;
                decoded <- cbor2_loads data ;;
                to_json_safe float_repr decoded) with
         | Ok json_result =>
             envelope = PDict [(PStr "success", PBool true);
                               (PStr "result", json_result);
                               (PStr "duration_ms",
                                 PFloat (elapsed_ms start_time now))]
         | Raise e =>
             envelope = PDict [(PStr "success", PBool false);
                               (PStr "error", PStr (exn_str e))]
             /\ has_field "result" envelope = false
             /\ has_field "hex" envelope = false
             /\ has_field "duration_ms" envelope = false
         end)
  /\ (exists envelope,
         encode_cbor cbor2_dumps start_time now input = Ok envelope
         /\ match (py_value <- from_json_safe input ;; cbor2_dumps py_value) with
            | Ok encoded =>
                envelope = PDict [(PStr "success", PBool true);
                                  (PStr "hex", PStr (bytes_hex encoded));
                                  (PStr "duration_ms",
                                    PFloat (elapsed_ms start_time now))]
            | Raise e =>
                envelope = PDict [(PStr "success", PBool false);
                                  (PStr "error", PStr (exn_str e))]
                /\ has_field "result" envelope = false
                /\ has_field "hex" envelope = false
                /\ has_field "duration_ms" envelope = false
            end).
Proof.
  unfold decode_cbor, encode_cbor, failure_envelope. split.
  - destruct (bytes_fromhex input) as [data|e]; cbn [bind try_except];
      [|eexists; repeat split].
    destruct (cbor2_loads data) as [decoded|e]; cbn [bind try_except];
      [|eexists; repeat split].
    destruct (to_json_safe float_repr decoded) as [j|e]; cbn [bind try_except];
      eexists; repeat split.
  - destruct (from_json_safe input) as [py_value|e]; cbn [bind try_except];
      [|eexists; repeat split].
    destruct (cbor2_dumps py_value) as [encoded|e]; cbn [bind try_except];
      eexists; repeat split.
Qed.

(** ** The two bridges *)

Lemma Forall_guarded {A : Type} (p : A -> bool) (Q : A -> Prop) (l : list A) :
  Forall (fun a => p a = true -> Q a) l -> forallb p l = true -> Forall Q l.
Proof.
  induction 1 as [|a l Ha _ IH]; simpl; intros Hp; constructor;
    apply andb_true_iff in Hp as [H1 H2]; auto.
Qed.

(** C9, counterexample: the two translators differ on a Tag, which
    [convert_types] returns as it is, and on a Map with an Integer key, which
    [convert_types] keeps as an Integer key. *)
Lemma bridges_differ :
  convert_types (PTag 42 (PStr "x")) = Ok (PTag 42 (PStr "x"))
  /\ (forall float_repr,
        to_json_safe float_repr (PTag 42 (PStr "x"))
        = Ok (PDict [(K_tag, PInt 42); (K_value, PStr "x")]))
  /\ convert_types (PDict [(PInt 1, PStr "a")]) = Ok (PDict [(PInt 1, PStr "a")])
  /\ (forall float_repr,
        to_json_safe float_repr (PDict [(PInt 1, PStr "a")])
        = Ok (PDict [(PStr "1", PStr "a")])).
Proof. repeat split. Qed.

(** C9, as the code has it: on every native value that holds no Tag and
    whose Maps have only TextString keys, [to_json_safe] and [convert_types]
    return the same thing (the same value or the same exception). *)
Theorem bridges_agree (float_repr : spec_float -> string) (v : pyval) :
  tag_free_text_keyed v = true ->
  to_json_safe float_repr v = convert_types v.
Proof.
  induction v as [ | | | | | | |l IH|l IH|l IH|d IH|t x IH| ]
    using pyval_ind_nested; intros H; try reflexivity; try discriminate.
  - cbn [to_json_safe convert_types].
    now rewrite (mapM_ext _ _ l (Forall_guarded _ _ l IH H)).
  - cbn [to_json_safe convert_types].
    now rewrite (mapM_ext _ _ l (Forall_guarded _ _ l IH H)).
  - cbn [to_json_safe convert_types].
    now rewrite (mapM_ext _ _ l (Forall_guarded _ _ l IH H)).
  - rewrite to_json_safe_dict. cbn [convert_types].
    apply dict_build_ext. cbn [tag_free_text_keyed] in H.
    rewrite forallb_forall in H. rewrite Forall_forall in IH |- *.
    intros [k x] Hin. specialize (H _ Hin). specialize (IH _ Hin).
    cbn [fst snd] in *. apply andb_true_iff in H as [Hk Hx].
    split; [|now apply IH]. now destruct k.
Qed.

Lemma bridges_agree_witness :
  to_json_safe repr_unused
    (PDict [(PStr "a", PList [PInt 9007199254740992; PBytes [x01]; PFloat float_nan])])
  = convert_types
      (PDict [(PStr "a", PList [PInt 9007199254740992; PBytes [x01]; PFloat float_nan])]).
Proof.
  exact (bridges_agree repr_unused
           (PDict [(PStr "a", PList [PInt 9007199254740992; PBytes [x01];
                                     PFloat float_nan])])
           eq_refl).
Defined.

(** ** The round trip *)

Lemma sf_eqb_refl (f : spec_float) : sf_eqb f f = true.
Proof.
  destruct f as [s|s| |s m e]; simpl;
    now rewrite ?eqb_reflx, ?Pos.eqb_refl, ?Z.eqb_refl.
Qed.

Lemma bytes_eqb_refl (b : list byte) : bytes_eqb b b = true.
Proof. unfold bytes_eqb. now destruct (list_eq_dec byte_eq_dec b b). Qed.

Lemma float_marker_decimal_text (z : Z) :
  float_marker (PStr (decimal_text z)) = None.
Proof.
  assert (H : forall s, parse_int s = None ->
                        String.eqb (decimal_text z) s = false).
  { intros s Hs. apply String.eqb_neq. intros E.
    rewrite <- E, parse_decimal_text in Hs. discriminate. }
  unfold float_marker. now rewrite !H by reflexivity.
Qed.

Lemma dict_build_PDict (key_of val_of : pyval -> outcome pyval) (items : dict) :
  forall (result : dict) (w : pyval),
    dict_build key_of val_of items result = Ok w -> exists d, w = PDict d.
Proof.
  induction items as [|[k v] items IH]; intros result w H; simpl in H.
  - injection H as <-. eauto.
  - apply bind_Ok in H as (k' & _ & H). apply bind_Ok in H as (v' & _ & H).
    apply bind_Ok in H as (r & _ & H). eauto.
Qed.

(** What [to_json_safe] returns for an Integer. *)
Lemma int_to_json_cases (z : Z) (j : pyval) :
  int_to_json z (str_int z) (PInt z) = Ok j ->
  (beyond_safe z = false /\ j = PInt z)
  \/ (beyond_safe z = true /\ printable z = true /\ j = PStr (decimal_text z)).
Proof.
  unfold int_to_json. fold (beyond_safe z). destruct (beyond_safe z).
  - intros H. apply bind_Ok in H as (t & Ht & H). injection H as <-.
    apply str_int_Ok in Ht as [Hp ->]. now right.
  - intros [= <-]. now left.
Qed.

(** Translating a value never turns it into a recognised float marker
    string, nor out of one. *)
Lemma float_marker_to_json (float_repr : spec_float -> string) (x x' : pyval) :
  to_json_safe float_repr x = Ok x' -> float_marker x' = float_marker x.
Proof.
  destruct x as [ |b|z|f|b|b|s|l|l|l|d|t x| ]; cbn [to_json_safe]; intros H;
    try (injection H as <-; reflexivity).
  - rewrite bool_to_json in H. now injection H as <-.
  - apply int_to_json_cases in H as [[_ ->]|(_ & _ & ->)];
      [reflexivity | apply float_marker_decimal_text].
  - injection H as <-. unfold float_to_json.
    destruct (isnan f); [reflexivity|]. now destruct (isinf f).
  - apply bind_Ok in H as (l' & _ & H). now injection H as <-.
  - apply bind_Ok in H as (l' & _ & H). now injection H as <-.
  - apply bind_Ok in H as (l' & _ & H). now injection H as <-.
  - apply dict_build_PDict in H as [d' ->]. reflexivity.
  - apply bind_Ok in H as (l' & _ & H). now injection H as <-.
Qed.

Lemma same_keys_contains (R : pyval -> pyval -> Prop) (k : pyval) (d d' : dict) :
  Forall2 (fun kv kv' => fst kv' = fst kv /\ R (snd kv) (snd kv')) d d' ->
  dict_contains k d' = dict_contains k d.
Proof.
  intros H. rewrite !dict_contains_get.
  pose proof (dict_get_Forall2 R k d d' H) as Hg.
  destruct (dict_get k d), (dict_get k d'); tauto.
Qed.

Lemma same_keys_marker_shaped (float_repr : spec_float -> string) (d d' : dict) :
  Forall2 (fun kv kv' => fst kv' = fst kv
                         /\ to_json_safe float_repr (snd kv) = Ok (snd kv')) d d' ->
  marker_shaped d' = marker_shaped d.
Proof.
  intros H. unfold marker_shaped.
  pose (R := fun v v' => to_json_safe float_repr v = Ok v').
  rewrite !(fun k => same_keys_contains R k d d' H).
  replace (float_marker_of d') with (float_marker_of d); [reflexivity|].
  unfold float_marker_of. rewrite (same_keys_contains R _ d d' H).
  pose proof (dict_get_Forall2 R K_float d d' H) as Hg. subst R.
  destruct (dict_get K_float d) as [x|], (dict_get K_float d') as [x'|];
    try tauto.
  simpl in Hg. now rewrite (float_marker_to_json _ _ _ Hg).
Qed.

Lemma is_str_hashable (k : pyval) : is_str k = true -> hashable k = true.
Proof. now destruct k. Qed.

Lemma map_key_str (float_repr : spec_float -> string) (k k' : pyval) :
  map_key float_repr k = Ok k' -> is_str k' = true.
Proof.
  destruct k; cbn [map_key]; intros H; try (now injection H as <-);
    apply bind_Ok in H as (j & _ & H);
    try apply bind_Ok in H as (t & _ & H); now injection H as <-.
Qed.

Lemma map_key_text (float_repr : spec_float -> string) (k : pyval) :
  is_str k = true -> map_key float_repr k = Ok k.
Proof. now destruct k. Qed.

Lemma map_keys_hashable (float_repr : spec_float -> string) (d d' : dict) :
  Forall2 (translates_entry float_repr) d d' ->
  forallb (fun kv => hashable (fst kv)) d' = true.
Proof.
  induction 1 as [|[k v] [k' v'] d d' [Hk _] _ IH]; [reflexivity|].
  simpl in *. rewrite IH.
  now rewrite (is_str_hashable k' (map_key_str _ _ _ Hk)).
Qed.

(** A Map whose translated keys do not collide is translated entry by
    entry, in order. *)
Lemma to_json_safe_map (float_repr : spec_float -> string) (d d' : dict) :
  Forall2 (fun kv kv' => map_key float_repr (fst kv) = Ok (fst kv')
                         /\ to_json_safe float_repr (snd kv) = Ok (snd kv')) d d' ->
  keys_distinct d' = true ->
  to_json_safe float_repr (PDict d) = Ok (PDict d').
Proof.
  intros H Hd. rewrite to_json_safe_dict.
  apply (dict_build_fresh _ _ d d' H []); [|exact Hd].
  exact (map_keys_hashable float_repr d d' H).
Qed.

Lemma to_json_safe_text_map (float_repr : spec_float -> string) (d d' : dict) :
  forallb (fun kv => is_str (fst kv)) d = true ->
  keys_distinct d = true ->
  Forall2 (fun kv kv' => fst kv' = fst kv
                         /\ to_json_safe float_repr (snd kv) = Ok (snd kv')) d d' ->
  to_json_safe float_repr (PDict d) = Ok (PDict d').
Proof.
  intros Hs Hd H. apply to_json_safe_map.
  - clear Hd. induction H as [|[k v] [k' v'] d d' [Hk Hv] _ IH];
      constructor; simpl in *.
    + apply andb_true_iff in Hs as [Hs _]. subst k'. split; [|exact Hv].
      now destruct k.
    + apply andb_true_iff in Hs as [_ Hs]. now apply IH.
  - now rewrite (same_keys_distinct
                   (fun v v' => to_json_safe float_repr v = Ok v') d d' H).
Qed.

(** The translation of a Map with distinct text keys has the same keys. *)
Lemma to_json_safe_text_map_inv (float_repr : spec_float -> string)
  (d : dict) (j : pyval) :
  forallb (fun kv => is_str (fst kv)) d = true ->
  keys_distinct d = true ->
  to_json_safe float_repr (PDict d) = Ok j ->
  exists d',
    j = PDict d'
    /\ Forall2 (fun kv kv' => fst kv' = fst kv
                              /\ to_json_safe float_repr (snd kv) = Ok (snd kv')) d d'.
Proof.
  intros Hs Hd H. pose proof H as H0. rewrite to_json_safe_dict in H0.
  apply dict_build_values in H0 as [d' H'].
  assert (H2 : Forall2 (fun kv kv' =>
                          fst kv' = fst kv
                          /\ to_json_safe float_repr (snd kv) = Ok (snd kv')) d d').
  { clear H Hd. induction H' as [|[k v] [k' v'] d d' [Hk Hv] _ IH];
      constructor; simpl in *.
    - apply andb_true_iff in Hs as [Hs _]. split; [|exact Hv].
      rewrite (map_key_text _ k Hs) in Hk. now injection Hk.
    - apply andb_true_iff in Hs as [_ Hs]. now apply IH. }
  exists d'. split; [|exact H2].
  rewrite (to_json_safe_text_map float_repr d d' Hs Hd H2) in H.
  now injection H.
Qed.

Lemma forallb_and_l {A : Type} (p q : A -> bool) (l : list A) :
  forallb (fun a => p a && q a) l = true -> forallb p l = true.
Proof.
  induction l as [|a l IH]; simpl; [reflexivity|].
  intros H. apply andb_true_iff in H as [H1 H2].
  apply andb_true_iff in H1 as [H1 _]. now rewrite H1, IH.
Qed.

Lemma forallb_impl {A : Type} (p q : A -> bool) (l : list A) :
  (forall a, p a = true -> q a = true) ->
  forallb p l = true -> forallb q l = true.
Proof.
  intros Hpq. induction l as [|a l IH]; simpl; [reflexivity|].
  intros H. apply andb_true_iff in H as [H1 H2]. now rewrite Hpq, IH.
Qed.

Lemma comes_back_elements (float_repr : spec_float -> string) (l : list pyval) :
  Forall (fun v => translatable v = true ->
                   forall j, to_json_safe float_repr v = Ok j ->
                             comes_back float_repr v j) l ->
  forallb translatable l = true ->
  forall js,
    mapM (to_json_safe float_repr) l = Ok js ->
    exists ws,
      mapM from_json_safe js = Ok ws
      /\ all2 sem_eqb l ws = true
      /\ mapM (to_json_safe float_repr) ws = Ok js.
Proof.
  induction 1 as [|v l Hv _ IH]; intros Ht js Hjs; simpl in Ht, Hjs.
  - injection Hjs as <-. now exists [].
  - apply andb_true_iff in Ht as [Ht1 Ht2].
    apply bind_Ok in Hjs as (j & Hj & Hjs).
    apply bind_Ok in Hjs as (js' & Hjs' & Hjs). injection Hjs as <-.
    destruct (Hv Ht1 j Hj) as (w & Hw & Hs & Hb).
    destruct (IH Ht2 js' Hjs') as (ws & Hws & Hss & Hbs).
    exists (w :: ws). simpl. now rewrite Hw, Hws, Hs, Hss, Hb, Hbs.
Qed.

Lemma comes_back_entries (float_repr : spec_float -> string) (d : dict) :
  Forall (fun kv =>
            (translatable (fst kv) = true ->
             forall j, to_json_safe float_repr (fst kv) = Ok j ->
                       comes_back float_repr (fst kv) j)
            /\ (translatable (snd kv) = true ->
                forall j, to_json_safe float_repr (snd kv) = Ok j ->
                          comes_back float_repr (snd kv) j)) d ->
  forallb (fun kv => is_str (fst kv) && translatable (snd kv)) d = true ->
  forall d1,
    Forall2 (fun kv kv' => fst kv' = fst kv
                           /\ to_json_safe float_repr (snd kv) = Ok (snd kv')) d d1 ->
    exists d2,
      Forall2 (fun kv kv' => fst kv' = fst kv
                             /\ from_json_safe (snd kv) = Ok (snd kv')) d1 d2
      /\ sem_eqb (PDict d) (PDict d2) = true
      /\ Forall2 (fun kv kv' =>
                    fst kv' = fst kv
                    /\ to_json_safe float_repr (snd kv) = Ok (snd kv')) d2 d1.
Proof.
  induction 1 as [|[k v] d [_ Hv] _ IH]; intros Ht d1 H1; simpl in Ht;
    cbn [fst snd] in *.
  - inversion H1; subst. exists []. repeat constructor.
  - apply andb_true_iff in Ht as [Ht1 Ht2].
    apply andb_true_iff in Ht1 as [Hk Ht1].
    inversion H1 as [|kv [k' j] d0 d1' [Hk' Hj] H1']; subst.
    cbn [fst snd] in *. subst k'.
    destruct (Hv Ht1 j Hj) as (w & Hw & Hs & Hb).
    destruct (IH Ht2 d1' H1') as (d2 & H2 & Hss & H3).
    exists ((k, w) :: d2).
    split; [|split]; try (constructor; [split|]; auto; fail).
    cbn [sem_eqb all2] in *. rewrite Hs, Hss.
    destruct k; try discriminate. cbn [sem_eqb]. now rewrite String.eqb_refl.
Qed.

(** What [to_json_safe] returns for a translatable value comes back as a
    semantically equal value, whose own translation is the same again. *)
Lemma comes_back_value (float_repr : spec_float -> string) (v : pyval) :
  translatable v = true ->
  forall j, to_json_safe float_repr v = Ok j -> comes_back float_repr v j.
Proof.
  induction v as [ |b|z|f|b|b|s|l IH|l IH|l IH|d IH|t x IH| ]
    using pyval_ind_nested; intros H j Hj; unfold comes_back;
    cbn [to_json_safe] in Hj.
  - injection Hj as <-. now exists PNone.
  - rewrite bool_to_json in Hj. injection Hj as <-. exists (PBool b).
    cbn [to_json_safe from_json_safe sem_eqb]. rewrite bool_to_json.
    repeat split. apply eqb_reflx.
  - apply int_to_json_cases in Hj as [[E ->]|(E & _ & ->)].
    + exists (PInt z). cbn [to_json_safe from_json_safe sem_eqb].
      rewrite int_to_json_safe by assumption. repeat split. apply Z.eqb_refl.
    + exists (PStr (decimal_text z)). repeat split.
      cbn [sem_eqb]. now rewrite E, parse_decimal_text, Z.eqb_refl.
  - injection Hj as <-.
    destruct f as [s|[|]| |s m e];
      (eexists; split; [reflexivity | split; [|reflexivity]]);
      cbn [sem_eqb isnan andb orb]; try reflexivity; apply sf_eqb_refl.
  - injection Hj as <-. exists (PBytes b). split; [|split; [|reflexivity]].
    + change (from_json_safe (PDict [(K_bytes, PStr (bytes_hex b))]))
        with (b0 <- fromhex_str (bytes_hex b) ;; Ok (PBytes b0)).
      now rewrite fromhex_hex.
    + cbn. apply bytes_eqb_refl.
  - injection Hj as <-. exists (PBytes b). split; [|split; [|reflexivity]].
    + change (from_json_safe (PDict [(K_bytes, PStr (bytes_hex b))]))
        with (b0 <- fromhex_str (bytes_hex b) ;; Ok (PBytes b0)).
      now rewrite fromhex_hex.
    + cbn. apply bytes_eqb_refl.
  - injection Hj as <-. exists (PStr s). repeat split. cbn. apply String.eqb_refl.
  - apply bind_Ok in Hj as (js & Hjs & Hj). injection Hj as <-.
    destruct (comes_back_elements float_repr l IH H js Hjs)
      as (ws & Hw & Hs & Hb).
    exists (PList ws). cbn [to_json_safe from_json_safe]. now rewrite Hw, Hb.
  - apply bind_Ok in Hj as (js & Hjs & Hj). injection Hj as <-.
    destruct (comes_back_elements float_repr l IH H js Hjs)
      as (ws & Hw & Hs & Hb).
    exists (PList ws). cbn [to_json_safe from_json_safe]. now rewrite Hw, Hb.
  - apply bind_Ok in Hj as (js & Hjs & Hj). injection Hj as <-.
    destruct (comes_back_elements float_repr l IH H js Hjs)
      as (ws & Hw & Hs & Hb).
    exists (PList ws). cbn [to_json_safe from_json_safe]. now rewrite Hw, Hb.
  - cbn [translatable] in H. apply andb_true_iff in H as [H Hm].
    apply andb_true_iff in H as [Ht Hd]. apply negb_true_iff in Hm.
    pose proof (forallb_and_l _ _ d Ht) as Hk.
    destruct (to_json_safe_text_map_inv float_repr d j Hk Hd Hj)
      as (d1 & -> & H1).
    destruct (comes_back_entries float_repr d IH Ht d1 H1) as (d2 & H2 & Hs & H3).
    pose (Rto := fun v v' => to_json_safe float_repr v = Ok v').
    pose (Rfrom := fun v v' => from_json_safe v = Ok v').
    assert (Hk1 : forallb (fun kv => is_str (fst kv)) d1 = true)
      by now rewrite (same_keys_forallb is_str Rto d d1 H1).
    assert (Hd1 : keys_distinct d1 = true)
      by now rewrite (same_keys_distinct Rto d d1 H1).
    exists (PDict d2). split; [|split; [exact Hs|]].
    + apply from_json_safe_plain_map; [| |exact H2].
      * now rewrite (same_keys_marker_shaped float_repr d d1 H1).
      * unfold dict_wf. rewrite Hd1, andb_true_r.
        revert Hk1. apply forallb_impl. intros [k v]. apply is_str_hashable.
    + apply to_json_safe_text_map; [ | | exact H3].
      * now rewrite (same_keys_forallb is_str Rfrom d1 d2 H2).
      * now rewrite (same_keys_distinct Rfrom d1 d2 H2).
  - cbn [translatable] in H. apply andb_true_iff in H as [Hr Hx].
    apply bind_Ok in Hj as (x' & Hx' & Hj). injection Hj as <-.
    destruct (IH Hx x' Hx') as (w & Hw & Hs & Hb).
    exists (PTag t w). split; [|split].
    + change (from_json_safe (PDict [(K_tag, PInt t); (K_value, x')]))
        with (x0 <- from_json_safe x' ;; CBORTag (PInt t) x0).
      rewrite Hw. cbn [bind CBORTag]. now rewrite Hr.
    + cbn [sem_eqb]. now rewrite Z.eqb_refl, Hs.
    + cbn [to_json_safe]. now rewrite Hb.
  - injection Hj as <-. now exists PUndefined.
Qed.

(** A translatable value whose Integers can be converted to text is
    translated. *)
Lemma to_json_safe_translatable (float_repr : spec_float -> string) (v : pyval) :
  translatable v = true -> ints_printable v = true ->
  exists j, to_json_safe float_repr v = Ok j.
Proof.
  induction v as [ |b|z|f|b|b|s|l IH|l IH|l IH|d IH|t x IH| ]
    using pyval_ind_nested; intros Ht Hp; cbn [to_json_safe];
    try (eexists; reflexivity).
  - rewrite bool_to_json. eauto.
  - cbn [ints_printable] in Hp. unfold int_to_json.
    rewrite (str_int_printable z Hp). destruct (_ || _); cbn [bind]; eauto.
  - destruct (mapM_total (to_json_safe float_repr) (fun _ => true) l)
      as (l' & -> & _); [|eexists; reflexivity].
    cbn [translatable ints_printable] in Ht, Hp.
    rewrite Forall_forall in IH |- *. rewrite forallb_forall in Ht, Hp.
    intros x Hx. destruct (IH x Hx (Ht x Hx) (Hp x Hx)) as [j ->]. eauto.
  - destruct (mapM_total (to_json_safe float_repr) (fun _ => true) l)
      as (l' & -> & _); [|eexists; reflexivity].
    cbn [translatable ints_printable] in Ht, Hp.
    rewrite Forall_forall in IH |- *. rewrite forallb_forall in Ht, Hp.
    intros x Hx. destruct (IH x Hx (Ht x Hx) (Hp x Hx)) as [j ->]. eauto.
  - destruct (mapM_total (to_json_safe float_repr) (fun _ => true) l)
      as (l' & -> & _); [|eexists; reflexivity].
    cbn [translatable ints_printable] in Ht, Hp.
    rewrite Forall_forall in IH |- *. rewrite forallb_forall in Ht, Hp.
    intros x Hx. destruct (IH x Hx (Ht x Hx) (Hp x Hx)) as [j ->]. eauto.
  - cbn [translatable ints_printable] in Ht, Hp.
    apply andb_true_iff in Ht as [Ht _]. apply andb_true_iff in Ht as [Ht _].
    destruct (dict_build_total (map_key float_repr) (to_json_safe float_repr)
                (fun _ => true) (fun _ => true) d)
      with (result := @nil (pyval * pyval)) as (d' & Hd' & _);
      [ | reflexivity | eauto].
    rewrite Forall_forall in IH |- *. rewrite forallb_forall in Ht, Hp.
    intros [k x] Hin. specialize (IH _ Hin). specialize (Ht _ Hin).
    specialize (Hp _ Hin). cbn [fst snd] in *.
    apply andb_true_iff in Ht as [Hk Hx]. apply andb_true_iff in Hp as [_ Hpx].
    destruct IH as [_ IHx]. destruct (IHx Hx Hpx) as [j Hj]. split.
    + exists k. rewrite (map_key_text _ k Hk).
      now rewrite (is_str_hashable k Hk).
    + exists j. now split.
  - cbn [translatable ints_printable] in Ht, Hp.
    apply andb_true_iff in Ht as [_ Ht]. apply andb_true_iff in Hp as [_ Hp].
    destruct (IH Ht Hp) as [j ->]. eexists. reflexivity.
Qed.




(** ** Colliding keys *)

(** C10: when two keys of a Map translate to the same JSON key, the entry
    of the first keeps its place and takes the value of the second, the
    entry of the second disappears, and nothing is raised: the translated
    Map has one entry less.  The other entries, whose keys do not collide,
    are translated in order around them.  An Integer key and the TextString
    key that spells it are such a pair: they are different keys of the
    native Map, and both are stored under the decimal text. *)
Theorem map_keys_collide (float_repr : spec_float -> string)
  (d1 d2 d3 d1' d2' d3' : dict) (k1 k2 key a b a' b' : pyval) :
  Forall2 (translates_entry float_repr) d1 d1' ->
  Forall2 (translates_entry float_repr) d2 d2' ->
  Forall2 (translates_entry float_repr) d3 d3' ->
  translates_entry float_repr (k1, a) (key, a') ->
  translates_entry float_repr (k2, b) (key, b') ->
  keys_distinct (d1' ++ (key, a') :: d2' ++ d3') = true ->
  to_json_safe float_repr (PDict (d1 ++ (k1, a) :: d2 ++ (k2, b) :: d3))
  = Ok (PDict (d1' ++ (key, b') :: d2' ++ d3'))
  /\ S (List.length (d1' ++ (key, b') :: d2' ++ d3'))
     = List.length (d1 ++ (k1, a) :: d2 ++ (k2, b) :: d3)
  /\ (forall z : Z,
        printable z = true ->
        key_eqb (PInt z) (PStr (decimal_text z)) = false
        /\ map_key float_repr (PInt z) = Ok (PStr (decimal_text z))
        /\ map_key float_repr (PStr (decimal_text z))
           = Ok (PStr (decimal_text z))).
Proof.
  intros H1 H2 H3 [Hk1 Ha] [Hk2 Hb] Hd. cbn [fst snd] in *.
  split; [|split].
  - rewrite to_json_safe_dict.
    assert (H12 : Forall2 (translates_entry float_repr)
                    (d1 ++ (k1, a) :: d2) (d1' ++ (key, a') :: d2')).
    { apply Forall2_app; [exact H1|]. constructor; [now split | exact H2]. }
    assert (Hd12 : keys_distinct (d1' ++ (key, a') :: d2') = true).
    { apply (keys_distinct_prefix _ d3'). now rewrite <- app_assoc. }
    pose proof (dict_build_fresh _ _ _ _ H12 []
                  (map_keys_hashable float_repr _ _ H12) Hd12) as Hfirst.
    cbn [app] in Hfirst.
    replace (d1 ++ (k1, a) :: d2 ++ (k2, b) :: d3)
      with ((d1 ++ (k1, a) :: d2) ++ (k2, b) :: d3)
      by now rewrite <- app_assoc.
    rewrite (dict_build_app _ _ _ _ _ _ Hfirst).
    cbn [dict_build]. fold (map_key float_repr k2). rewrite Hk2, Hb.
    cbn [bind]. unfold dict_setitem_hashed.
    pose proof (map_key_str _ _ _ Hk2) as Hs.
    rewrite (is_str_hashable key Hs). cbn [bind].
    assert (Hfresh : dict_contains key d1' = false).
    { apply (keys_distinct_app d1' key a' d2').
      apply (keys_distinct_prefix _ d3'). now rewrite <- app_assoc. }
    rewrite dict_setitem_hit;
      [ | exact Hfresh | destruct key; try discriminate; apply String.eqb_refl].
    rewrite (dict_build_fresh _ _ d3 d3' H3).
    + now rewrite <- app_assoc.
    + exact (map_keys_hashable float_repr d3 d3' H3).
    + rewrite <- Hd, <- app_assoc. apply keys_distinct_keys.
      rewrite !map_app. simpl. now rewrite map_app.
  - rewrite !List.length_app. cbn [List.length]. rewrite !List.length_app.
    cbn [List.length].
    rewrite (Forall2_length H1), (Forall2_length H2), (Forall2_length H3). lia.
  - intros z Hz. cbn [map_key key_eqb as_number].
    now rewrite (str_int_printable z Hz).
Qed.

Lemma map_keys_collide_witness :
  to_json_safe repr_unused
    (PDict [(PStr "x", PNone); (PInt 1, PStr "a"); (PBytes [x01], PBool true);
            (PStr "1", PStr "b"); (PNone, PInt 3)])
  = Ok (PDict [(PStr "x", PNone); (PStr "1", PStr "b");
               (PStr "01", PBool true); (PStr "null", PInt 3)]).
Proof.
  refine (proj1 (map_keys_collide repr_unused
                   [(PStr "x", PNone)] [(PBytes [x01], PBool true)]
                   [(PNone, PInt 3)]
                   [(PStr "x", PNone)] [(PStr "01", PBool true)]
                   [(PStr "null", PInt 3)]
                   (PInt 1) (PStr "1") (PStr "1")
                   (PStr "a") (PStr "b") (PStr "a") (PStr "b")
                   _ _ _ _ _ eq_refl));
    repeat constructor.
Defined.

(** * Further properties *)

(** ** What [to_json_safe] returns *)

Lemma float_to_json_shaped (f : spec_float) : wire_shaped (float_to_json f) = true.
Proof. now destruct f as [s|[|]| |s m e]. Qed.

Lemma int_to_json_shaped (z : Z) (j : pyval) :
  int_to_json z (str_int z) (PInt z) = Ok j -> wire_shaped j = true.
Proof.
  intros H. apply int_to_json_cases in H as [[E ->]|(_ & _ & ->)];
    [|reflexivity]. cbn. now rewrite E.
Qed.

Lemma to_json_safe_shaped (float_repr : spec_float -> string) (v : pyval) :
  forall j, to_json_safe float_repr v = Ok j -> wire_shaped j = true.
Proof.
  induction v as [ |b|z|f|b|b|s|l IH|l IH|l IH|d IH|t x IH| ]
    using pyval_ind_nested; intros j H; cbn [to_json_safe] in H;
    try (injection H as <-; reflexivity).
  - rewrite bool_to_json in H. now injection H as <-.
  - now apply (int_to_json_shaped z).
  - injection H as <-. apply float_to_json_shaped.
  - apply bind_Ok in H as (l' & Hl & H). injection H as <-.
    cbn [wire_shaped]. now apply (mapM_inv _ _ l IH).
  - apply bind_Ok in H as (l' & Hl & H). injection H as <-.
    cbn [wire_shaped]. now apply (mapM_inv _ _ l IH).
  - apply bind_Ok in H as (l' & Hl & H). injection H as <-.
    cbn [wire_shaped]. now apply (mapM_inv _ _ l IH).
  - destruct (dict_build_inv (map_key float_repr) (to_json_safe float_repr)
                is_str wire_shaped d) with (result := @nil (pyval * pyval)) (w := j)
      as (d' & -> & Hd'); [ | reflexivity | exact H | ].
    + eapply Forall_impl; [|exact IH]. intros [k x] [_ Hx]. split.
      * apply map_key_str.
      * exact Hx.
    + cbn [wire_shaped]. revert Hd'. apply forallb_impl. intros [k x] Hkx.
      cbn [fst snd] in *. apply andb_true_iff in Hkx as [-> ->].
      now rewrite orb_true_r.
  - apply bind_Ok in H as (x' & Hx & H). injection H as <-.
    cbn. now rewrite (IH x' Hx).
Qed.

(** [json.dumps] on an object: the items are printed one by one. *)
Lemma json_dumps_dict (float_repr : spec_float -> string) (d : dict) :
  json_dumps float_repr (PDict d)
  = (parts <- mapM (fun kv =>
                      ks <- json_key float_repr (fst kv) ;;
                      xs <- json_dumps float_repr (snd kv) ;;
                      Ok (ks ++ ": " ++ xs)%string) d ;;
     Ok ("{" ++ join ", " parts ++ "}")%string).
Proof.
  cbn [json_dumps]. f_equal.
  induction d as [|[k x] d IH]; [reflexivity|].
  cbn [mapM fst snd]. rewrite IH.
  destruct (json_key float_repr k); [|reflexivity].
  now destruct (json_dumps float_repr x).
Qed.


Lemma forallb_and {A : Type} (p q : A -> bool) (l : list A) :
  forallb p l = true -> forallb q l = true ->
  forallb (fun a => p a && q a) l = true.
Proof.
  induction l as [|a l IH]; simpl; [reflexivity|].
  intros Hp Hq. apply andb_true_iff in Hp as [-> Hp].
  apply andb_true_iff in Hq as [-> Hq]. now apply IH.
Qed.




(** X2: whatever [to_json_safe] returns has only text keys in its objects,
    only finite floats, and only integers within the safe range, the number
    stored under [__cbor_tag__] excepted; it holds no bytes, tuple, set or
    Tag object. *)
Theorem translation_shape
  (float_repr : spec_float -> string) (v j : pyval) :
  to_json_safe float_repr v = Ok j -> wire_shaped j = true.
Proof. apply to_json_safe_shaped. Qed.

Lemma translation_shape_witness :
  wire_shaped
    (PDict [(PStr "1", PDict [(K_tag, PInt 18446744073709551615);
                              (K_value, PStr "18446744073709551615")]);
            (PStr "null", PDict [(K_float, PStr "NaN")])]) = true.
Proof.
  exact (translation_shape repr_unused
           (PDict [(PInt 1, PTag 18446744073709551615 (PInt 18446744073709551615));
                   (PNone, PFloat float_nan)])
           _ eq_refl).
Defined.

(** ** The JSON form after a round trip *)

(** X3: for every native value on which the round trip is lossless (its
    Integers have at most 4300 decimal digits), translating what came back
    gives exactly the JSON-safe value that went out: the JSON form does not
    drift, although the value itself may come back with another class (a
    list for a tuple, a string for a big Integer). *)
Theorem json_form_is_stable (float_repr : spec_float -> string) (v : pyval) :
  translatable v = true ->
  ints_printable v = true ->
  exists j w,
    to_json_safe float_repr v = Ok j
    /\ from_json_safe j = Ok w
    /\ to_json_safe float_repr w = Ok j.
Proof.
  intros H Hp. destruct (to_json_safe_translatable float_repr v H Hp) as [j Hj].
  destruct (comes_back_value float_repr v H j Hj) as (w & Hw & _ & Hb).
  now exists j, w.
Qed.

Lemma json_form_is_stable_witness :
  exists j w,
    to_json_safe repr_unused
      (PTuple [PInt (-9007199254740992); PByteArray [x0a];
               PDict [(PStr "t", PTag 1 (PSet [PFloat float_neg_inf]))]]) = Ok j
    /\ from_json_safe j = Ok w
    /\ to_json_safe repr_unused w = Ok j.
Proof.
  exact (json_form_is_stable repr_unused
           (PTuple [PInt (-9007199254740992); PByteArray [x0a];
                    PDict [(PStr "t", PTag 1 (PSet [PFloat float_neg_inf]))]])
           eq_refl eq_refl).
Defined.

(** ** JSON input without markers *)

Lemma mapM_id {A : Type} (f : A -> outcome A) (l : list A) :
  Forall (fun a => f a = Ok a) l -> mapM f l = Ok l.
Proof.
  induction 1 as [|a l Ha _ IH]; simpl; [reflexivity|]. now rewrite Ha, IH.
Qed.

Lemma from_json_safe_marker_free (v : pyval) :
  marker_free v = true -> from_json_safe v = Ok v.
Proof.
  induction v as [ |b|z|f|b|b|s|l IH|l IH|l IH|d IH|t x IH| ]
    using pyval_ind_nested; intros H; try reflexivity.
  - cbn [from_json_safe]. now rewrite (mapM_id _ l (Forall_guarded _ _ l IH H)).
  - cbn [marker_free] in H. apply andb_true_iff in H as [H Hm].
    apply andb_true_iff in H as [Hv Hwf]. apply negb_true_iff in Hm.
    apply from_json_safe_plain_map; try assumption.
    rewrite Forall_forall in IH. rewrite forallb_forall in Hv.
    clear Hwf Hm. induction d as [|[k x] d IHd]; constructor.
    + split; [reflexivity|]. cbn [snd].
      apply (proj2 (IH (k, x) (or_introl eq_refl))).
      apply (Hv (k, x) (or_introl eq_refl)).
    + apply IHd; intros kv Hin; [apply IH | apply Hv]; now right.
Qed.

(** X4: on JSON input in which no object is shaped like a marker,
    [from_json_safe] changes nothing; [encode_cbor] then hands the codec the
    input itself and answers with the hex text that [cbor2_encode] of the
    command line bridge returns for the same input (or with the message of
    the exception it raises). *)
Theorem plain_input_is_encoded_alike
  (cbor2_dumps : pyval -> outcome (list byte))
  (start_time now : spec_float) (value : pyval) :
  marker_free value = true ->
  from_json_safe value = Ok value
  /\ encode_cbor cbor2_dumps start_time now value
     = Ok (match cbor2_encode cbor2_dumps value with
           | Ok hex_string =>
               PDict [(PStr "success", PBool true);
                      (PStr "hex", PStr hex_string);
                      (PStr "duration_ms", PFloat (elapsed_ms start_time now))]
           | Raise e => request_failure (exn_str e)
           end).
Proof.
  intros H. pose proof (from_json_safe_marker_free value H) as Hid.
  split; [exact Hid|]. unfold encode_cbor, cbor2_encode. rewrite Hid.
  cbn [bind]. now destruct (cbor2_dumps value).
Qed.

Lemma plain_input_is_encoded_alike_witness :
  from_json_safe
    (PDict [(PStr "__cbor_tag__", PInt 1);
            (PStr "a", PList [PDict [(K_float, PStr "nan")]; PNone])])
  = Ok (PDict [(PStr "__cbor_tag__", PInt 1);
               (PStr "a", PList [PDict [(K_float, PStr "nan")]; PNone])]).
Proof.
  exact (proj1 (plain_input_is_encoded_alike
                  (fun _ => Ok []) (S754_zero false) (S754_zero false)
                  (PDict [(PStr "__cbor_tag__", PInt 1);
                          (PStr "a", PList [PDict [(K_float, PStr "nan")]; PNone])])
                  eq_refl)).
Defined.

(** ** Map keys in the command line bridge *)





(** ** The command line bridge *)

Lemma json_dumps_request_failure (float_repr : spec_float -> string)
  (msg : string) :
  exists text, json_dumps float_repr (request_failure msg) = Ok text.
Proof. eexists. reflexivity. Qed.

(** X6: every run of [main] prints exactly one line and ends with status 0
    or 1; the status is 0 exactly when at least two arguments were given and
    the whole request (reading the input, the codec, the translation and the
    final [json.dumps]) raised nothing, and the line is then the success
    report. *)
Theorem bridge_main_reports
  (float_repr : spec_float -> string)
  (json_loads : string -> outcome pyval)
  (cbor2_loads : list byte -> outcome pyval)
  (cbor2_dumps : pyval -> outcome (list byte))
  (dag_cbor_decode_bytes : list byte -> outcome pyval)
  (dag_cbor_encode_value : pyval -> outcome (list byte))
  (argv : list string) (stdin : string) :
  let run := bridge_main float_repr json_loads cbor2_loads cbor2_dumps
               dag_cbor_decode_bytes dag_cbor_encode_value argv stdin in
  exists line,
    fst run = [line]
    /\ (snd run = 0 \/ snd run = 1)
    /\ (snd run = 0 <->
        exists prog library action rest,
          argv = prog :: library :: action :: rest
          /\ bridge_request float_repr json_loads cbor2_loads cbor2_dumps
               dag_cbor_decode_bytes dag_cbor_encode_value library action stdin
             = Ok line).
Proof.
  cbv zeta. unfold bridge_main.
  destruct argv as [|prog [|library [|action rest]]];
    try (eexists; split; [reflexivity|]; split; [now right|];
         split; [discriminate | intros (? & ? & ? & ? & ? & _); discriminate]).
  destruct (bridge_request _ _ _ _ _ _ library action stdin) as [line|e] eqn:E.
  - exists line. split; [reflexivity|]. split; [now left|].
    split; [|reflexivity]. intros _. now exists prog, library, action, rest.
  - destruct (json_dumps_request_failure float_repr (exn_str e)) as [text Ht].
    rewrite Ht. exists text. split; [reflexivity|]. split; [now right|].
    split; [discriminate|].
    intros (p & l & a & r & Heq & Hok). injection Heq as <- <- <- <-.
    rewrite E in Hok. discriminate.
Qed.





(** ** The HTTP handler *)

Lemma io_bind_lift {A B : Type} (r : outcome A) (k : A -> io B) :
  io_bind (io_lift r) k
  = match r with Ok a => k a | Raise e => ([], Raise e) end.
Proof. destruct r as [a|e]; [|reflexivity]. simpl. now destruct (k a). Qed.

Lemma send_json_eq (float_repr : spec_float -> string) (status : Z)
  (data : pyval) :
  send_json float_repr status data
  = match json_dumps float_repr data with
    | Ok text => (response_head status ++ [Write text], Ok tt)
    | Raise e => (response_head status, Raise e)
    end.
Proof. unfold send_json. simpl. now destruct (json_dumps float_repr data). Qed.

Lemma send_json_cases (float_repr : spec_float -> string) (status : Z)
  (data : pyval) :
  answered_or_raised (send_json float_repr status data).
Proof.
  rewrite send_json_eq. destruct (json_dumps float_repr data) as [text|e].
  - left. eauto.
  - right. right. eauto.
Qed.

Lemma decode_cbor_returns (float_repr : spec_float -> string)
  (cbor2_loads : list byte -> outcome pyval) (start_time now : spec_float)
  (hex_string : pyval) :
  exists envelope,
    decode_cbor float_repr cbor2_loads start_time now hex_string = Ok envelope.
Proof.
  unfold decode_cbor.
  destruct (bytes_fromhex hex_string) as [data|]; cbn [bind try_except]; eauto.
  destruct (cbor2_loads data) as [r|]; cbn [bind try_except]; eauto.
  destruct (to_json_safe float_repr r); cbn [bind try_except]; eauto.
Qed.

Lemma encode_cbor_returns (cbor2_dumps : pyval -> outcome (list byte))
  (start_time now : spec_float) (value : pyval) :
  exists envelope, encode_cbor cbor2_dumps start_time now value = Ok envelope.
Proof.
  unfold encode_cbor.
  destruct (from_json_safe value) as [v|]; cbn [bind try_except]; eauto.
  destruct (cbor2_dumps v); cbn [bind try_except]; eauto.
Qed.

(** The body of the [try] of [do_POST] writes one body at the end, or raises
    before any body was written. *)
Lemma do_POST_body_cases
  (float_repr : spec_float -> string)
  (cbor2_loads : list byte -> outcome pyval)
  (cbor2_dumps : pyval -> outcome (list byte))
  (json_loads : string -> outcome pyval)
  (start_time now : spec_float) (path : string) (request_body : outcome string) :
  answered_or_raised
    (body <~ io_lift request_body ;;
     data <~ io_lift (json_loads body) ;;
     if String.eqb path "/decode" then
       present <~ io_lift (py_contains "hex" data) ;;
       if negb present
       then send_json float_repr 400 (request_failure (missing_field "hex"))
       else
         hex_string <~ io_lift (py_getitem data "hex") ;;
         result <~ io_lift (decode_cbor float_repr cbor2_loads start_time now
                              hex_string) ;;
         send_json float_repr 200 result
     else if String.eqb path "/encode" then
       present <~ io_lift (py_contains "value" data) ;;
       if negb present
       then send_json float_repr 400 (request_failure (missing_field "value"))
       else
         value <~ io_lift (py_getitem data "value") ;;
         result <~ io_lift (encode_cbor cbor2_dumps start_time now value) ;;
         send_json float_repr 200 result
     else send_json float_repr 404 not_found).
Proof.
  rewrite io_bind_lift. destruct request_body as [body|e];
    [|right; left; eauto].
  rewrite io_bind_lift. destruct (json_loads body) as [data|e];
    [|right; left; eauto].
  destruct (String.eqb path "/decode").
  - rewrite io_bind_lift. destruct (py_contains "hex" data) as [[|]|e];
      cbn [negb]; [ | apply send_json_cases | right; left; eauto].
    rewrite io_bind_lift. destruct (py_getitem data "hex") as [x|e];
      [|right; left; eauto].
    rewrite io_bind_lift.
    destruct (decode_cbor_returns float_repr cbor2_loads start_time now x)
      as [env ->].
    apply send_json_cases.
  - destruct (String.eqb path "/encode"); [|apply send_json_cases].
    rewrite io_bind_lift. destruct (py_contains "value" data) as [[|]|e];
      cbn [negb]; [ | apply send_json_cases | right; left; eauto].
    rewrite io_bind_lift. destruct (py_getitem data "value") as [x|e];
      [|right; left; eauto].
    rewrite io_bind_lift.
    destruct (encode_cbor_returns cbor2_dumps start_time now x) as [env ->].
    apply send_json_cases.
Qed.

(** X8: whatever the request, the codec and the JSON parser do, [do_POST]
    raises nothing and writes exactly one body, as its last call; before it
    there are one or two status lines with their header, two when the body of
    the first answer could not be serialised. *)
Theorem do_POST_always_answers
  (float_repr : spec_float -> string)
  (cbor2_loads : list byte -> outcome pyval)
  (cbor2_dumps : pyval -> outcome (list byte))
  (json_loads : string -> outcome pyval)
  (start_time now : spec_float) (path : string) (request_body : outcome string) :
  exists status text,
    do_POST float_repr cbor2_loads cbor2_dumps json_loads start_time now
      path request_body
    = (response_head status ++ [Write text], Ok tt)
    \/ do_POST float_repr cbor2_loads cbor2_dumps json_loads start_time now
         path request_body
       = (response_head 200 ++ response_head status ++ [Write text], Ok tt).
Proof.
  unfold do_POST.
  assert (Hh : forall e,
             exists status text,
               (if is_JSONDecodeError e
                then send_json float_repr 400 (request_failure "Invalid JSON")
                else send_json float_repr 500 (request_failure (exn_str e)))
               = (response_head status ++ [Write text], Ok tt)).
  { intros e. destruct (is_JSONDecodeError e); rewrite send_json_eq.
    - destruct (json_dumps_request_failure float_repr "Invalid JSON") as [t ->].
      eauto.
    - destruct (json_dumps_request_failure float_repr (exn_str e)) as [t ->].
      eauto. }
  destruct (do_POST_body_cases float_repr cbor2_loads cbor2_dumps json_loads
              start_time now path request_body)
    as [(status & text & ->) | [(e & ->) | (status & e & E)]].
  - exists status, text. now left.
  - destruct (Hh e) as (status & text & H). exists status, text. left.
    cbn [io_try]. now rewrite H.
  - destruct (Hh e) as (status' & text & H). exists status', text.
    rewrite E. cbn [io_try]. rewrite H.
    (* the first status line can only be the 200 of a result that json.dumps rejected *)
    revert E. rewrite io_bind_lift. destruct request_body as [body|]; [|discriminate].
    rewrite io_bind_lift. destruct (json_loads body) as [data|]; [|discriminate].
    assert (Hf : forall s m e0,
               send_json float_repr s (request_failure m)
               <> (response_head status, Raise e0)).
    { intros s m e0. rewrite send_json_eq.
      destruct (json_dumps_request_failure float_repr m) as [t ->]. discriminate. }
    assert (Hn : send_json float_repr 404 not_found
                 <> (response_head status, Raise e)) by discriminate.
    assert (H200 : forall env,
               send_json float_repr 200 env = (response_head status, Raise e) ->
               status = 200).
    { intros env. rewrite send_json_eq.
      destruct (json_dumps float_repr env); [discriminate|].
      now intros [= <- _]. }
    destruct (String.eqb path "/decode").
    + rewrite io_bind_lift. destruct (py_contains "hex" data) as [[|]|];
        cbn [negb]; [ | intros E; now apply Hf in E | discriminate].
      rewrite io_bind_lift. destruct (py_getitem data "hex") as [x|];
        [|discriminate].
      rewrite io_bind_lift.
      destruct (decode_cbor_returns float_repr cbor2_loads start_time now x)
        as [env ->].
      intros E. apply H200 in E. subst status. now right.
    + destruct (String.eqb path "/encode"); [|intros E; now apply Hn in E].
      rewrite io_bind_lift. destruct (py_contains "value" data) as [[|]|];
        cbn [negb]; [ | intros E; now apply Hf in E | discriminate].
      rewrite io_bind_lift. destruct (py_getitem data "value") as [x|];
        [|discriminate].
      rewrite io_bind_lift.
      destruct (encode_cbor_returns cbor2_dumps start_time now x) as [env ->].
      intros E. apply H200 in E. subst status. now right.
Qed.

Lemma mapM_raises {A B : Type} (f : A -> outcome B) (l : list A) (e : exn) :
  mapM f l = Raise e -> exists a, In a l /\ f a = Raise e.
Proof.
  induction l as [|a l IH]; simpl; [discriminate|].
  destruct (f a) as [b|e'] eqn:Ha; cbn [bind].
  - destruct (mapM f l) as [bs|e'']; cbn [bind]; [discriminate|].
    intros [= ->]. destruct (IH eq_refl) as (a' & Hin & Ha'). eauto.
  - intros [= ->]. eauto.
Qed.

(** [json.dumps] raises nothing but [TypeError], and the [ValueError] of an
    integer that is too long to be converted. *)
Lemma json_dumps_raises (float_repr : spec_float -> string) (v : pyval) :
  forall e, json_dumps float_repr v = Raise e ->
            (exists msg, e = TypeError msg) \/ e = int_too_long.
Proof.
  induction v as [ |b|z|f|b|b|s|l IH|l IH|l IH|d IH|t x IH| ]
    using pyval_ind_nested; intros e H; cbn [json_dumps] in H;
    try discriminate; try (injection H as <-; eauto; fail).
  - destruct b; discriminate.
  - apply str_int_Raise in H as [_ ->]. now right.
  - destruct (mapM (json_dumps float_repr) l) as [parts|e'] eqn:Hm;
      [discriminate|]. injection H as ->.
    apply mapM_raises in Hm as (a & Hin & Ha).
    rewrite Forall_forall in IH. now apply (IH a Hin).
  - destruct (mapM (json_dumps float_repr) l) as [parts|e'] eqn:Hm;
      [discriminate|]. injection H as ->.
    apply mapM_raises in Hm as (a & Hin & Ha).
    rewrite Forall_forall in IH. now apply (IH a Hin).
  - change (json_dumps float_repr (PDict d) = Raise e) in H.
    rewrite json_dumps_dict in H.
    match type of H with bind ?m _ = _ => destruct m as [parts|e'] eqn:Hm end;
      [discriminate|]. injection H as ->.
    apply mapM_raises in Hm as ([k x] & Hin & Ha). cbn [fst snd] in Ha.
    rewrite Forall_forall in IH. destruct (IH _ Hin) as [_ IHx]. cbn [snd] in IHx.
    destruct (json_key float_repr k) as [ks|e'] eqn:Hk; cbn [bind] in Ha.
    + destruct (json_dumps float_repr x) as [xs|e'] eqn:Hx; [discriminate|].
      injection Ha as ->. now apply IHx.
    + injection Ha as ->. destruct k as [ |[|]|z| | | | | | | | | | ];
        try discriminate; try (injection Hk as <-; eauto; fail).
      cbn [json_key] in Hk.
      destruct (str_int z) as [t|e'] eqn:Hz; [discriminate|].
      injection Hk as ->. apply str_int_Raise in Hz as [_ ->]. now right.
Qed.

Lemma json_dumps_raises_no_decode_error (float_repr : spec_float -> string)
  (v : pyval) (e : exn) :
  json_dumps float_repr v = Raise e -> is_JSONDecodeError e = false.
Proof.
  intros H. now destruct (json_dumps_raises float_repr v e H) as [[msg ->]| ->].
Qed.

Lemma py_request_field (name : string) (d : dict) (x : pyval) :
  dict_get (PStr name) d = Some x ->
  py_contains name (PDict d) = Ok true /\ py_getitem (PDict d) name = Ok x.
Proof.
  intros H. cbn [py_contains py_getitem]. rewrite dict_contains_get, H.
  now rewrite (dict_getitem_get name x d H).
Qed.

(** X9: when the decoded value is translated but the translation cannot be
    serialised (it holds [undefined]), the status line 200 has already been
    sent when [json.dumps] raises; the handler then sends a second status
    line, 500, and the failure report as the only body. *)
Theorem unserialisable_result_gets_two_status_lines
  (float_repr : spec_float -> string)
  (cbor2_loads : list byte -> outcome pyval)
  (cbor2_dumps : pyval -> outcome (list byte))
  (json_loads : string -> outcome pyval)
  (start_time now : spec_float)
  (body : string) (d : dict) (hex_string : pyval) (data : list byte)
  (decoded j : pyval) (e : exn) :
  json_loads body = Ok (PDict d) ->
  dict_get (PStr "hex") d = Some hex_string ->
  bytes_fromhex hex_string = Ok data ->
  cbor2_loads data = Ok decoded ->
  to_json_safe float_repr decoded = Ok j ->
  json_dumps float_repr j = Raise e ->
  exists text,
    json_dumps float_repr (request_failure (exn_str e)) = Ok text
    /\ do_POST float_repr cbor2_loads cbor2_dumps json_loads start_time now
         "/decode" (Ok body)
       = (response_head 200 ++ response_head 500 ++ [Write text], Ok tt).
Proof.
  intros Hl Hg Hh Hc Hj He.
  destruct (json_dumps_request_failure float_repr (exn_str e)) as [text Ht].
  exists text. split; [exact Ht|].
  destruct (py_request_field "hex" d hex_string Hg) as [Hin Hget].
  pose proof (json_dumps_raises_no_decode_error float_repr j e He) as Hcls.
  unfold do_POST. rewrite !io_bind_lift, Hl. cbn [String.eqb Ascii.eqb Bool.eqb].
  rewrite io_bind_lift, Hin. cbn [negb]. rewrite io_bind_lift, Hget.
  rewrite io_bind_lift. unfold decode_cbor. rewrite Hh. cbn [bind].
  rewrite Hc. cbn [bind]. rewrite Hj. cbn [bind try_except].
  rewrite send_json_eq, json_dumps_dict.
  cbn [mapM fst snd json_key json_dumps bind]. rewrite He.
  cbn [bind io_try]. rewrite Hcls, send_json_eq, Ht. reflexivity.
Qed.

Lemma unserialisable_result_gets_two_status_lines_witness :
  exists text,
    json_dumps repr_unused
      (request_failure
         (exn_str (TypeError "Object of type undefined_type is not JSON serializable")))
    = Ok text
    /\ do_POST repr_unused (fun _ => Ok PUndefined) (fun _ => Ok [])
         (fun _ => Ok (PDict [(PStr "hex", PStr "f7")]))
         (S754_zero false) (S754_zero false) "/decode" (Ok "{}")
       = (response_head 200 ++ response_head 500 ++ [Write text], Ok tt).
Proof.
  exact (unserialisable_result_gets_two_status_lines repr_unused
           (fun _ => Ok PUndefined) (fun _ => Ok [])
           (fun _ => Ok (PDict [(PStr "hex", PStr "f7")]))
           (S754_zero false) (S754_zero false) "{}"
           [(PStr "hex", PStr "f7")] (PStr "f7") [xf7] PUndefined PUndefined
           (TypeError "Object of type undefined_type is not JSON serializable")
           eq_refl eq_refl eq_refl eq_refl eq_refl eq_refl).
Defined.

(** X10: a decode request whose hex text or whose bytes are rejected is still
    answered with status 200; the failure shows only in the envelope, whose
    [error] is the message of the exception. *)
Theorem codec_failure_is_answered_200
  (float_repr : spec_float -> string)
  (cbor2_loads : list byte -> outcome pyval)
  (cbor2_dumps : pyval -> outcome (list byte))
  (json_loads : string -> outcome pyval)
  (start_time now : spec_float)
  (body : string) (d : dict) (hex_string : pyval) (e : exn) :
  json_loads body = Ok (PDict d) ->
  dict_get (PStr "hex") d = Some hex_string ->
  (data <- bytes_fromhex hex_string ;;
   decoded <- cbor2_loads data ;;
   to_json_safe float_repr decoded) = Raise e ->
  exists text,
    json_dumps float_repr (request_failure (exn_str e)) = Ok text
    /\ do_POST float_repr cbor2_loads cbor2_dumps json_loads start_time now
         "/decode" (Ok body)
       = (response_head 200 ++ [Write text], Ok tt).
Proof.
  intros Hl Hg He.
  destruct (json_dumps_request_failure float_repr (exn_str e)) as [text Ht].
  exists text. split; [exact Ht|].
  destruct (py_request_field "hex" d hex_string Hg) as [Hin Hget].
  unfold do_POST. rewrite !io_bind_lift, Hl. cbn [String.eqb Ascii.eqb Bool.eqb].
  rewrite io_bind_lift, Hin. cbn [negb]. rewrite io_bind_lift, Hget.
  rewrite io_bind_lift.
  assert (Hd : decode_cbor float_repr cbor2_loads start_time now hex_string
               = Ok (request_failure (exn_str e))).
  { unfold decode_cbor.
    destruct (bytes_fromhex hex_string) as [data|]; cbn [bind] in *;
      [|now injection He as ->].
    destruct (cbor2_loads data) as [r|]; cbn [bind] in *;
      [|now injection He as ->].
    now rewrite He. }
  rewrite Hd, send_json_eq, Ht. reflexivity.
Qed.

Lemma codec_failure_is_answered_200_witness :
  exists text,
    json_dumps repr_unused
      (request_failure
         (exn_str (fromhex_error 0))) = Ok text
    /\ do_POST repr_unused (fun _ => Ok PNone) (fun _ => Ok [])
         (fun _ => Ok (PDict [(PStr "hex", PStr "zz")]))
         (S754_zero false) (S754_zero false) "/decode" (Ok "{}")
       = (response_head 200 ++ [Write text], Ok tt).
Proof.
  exact (codec_failure_is_answered_200 repr_unused
           (fun _ => Ok PNone) (fun _ => Ok [])
           (fun _ => Ok (PDict [(PStr "hex", PStr "zz")]))
           (S754_zero false) (S754_zero false) "{}"
           [(PStr "hex", PStr "zz")] (PStr "zz") (fromhex_error 0)
           eq_refl eq_refl eq_refl).
Defined.

(** X11: how [do_POST] answers a decode request that carries no usable
    [hex] field.  A body that is not JSON, an object without the key and an
    array without the element "hex" get status 400; a body that is null, a
    boolean or a number gets status 500, because [in] raises on it, and so
    does a string that contains the text hex, because it cannot be indexed
    by a string. *)
Theorem requests_without_hex_field
  (float_repr : spec_float -> string)
  (cbor2_loads : list byte -> outcome pyval)
  (cbor2_dumps : pyval -> outcome (list byte))
  (json_loads : string -> outcome pyval)
  (start_time now : spec_float) (body : string) :
  let answer := do_POST float_repr cbor2_loads cbor2_dumps json_loads
                  start_time now "/decode" (Ok body) in
  (forall msg,
      json_loads body = Raise (JSONDecodeError msg) ->
      exists text,
        json_dumps float_repr (request_failure "Invalid JSON") = Ok text
        /\ answer = (response_head 400 ++ [Write text], Ok tt))
  /\ (forall d,
        json_loads body = Ok (PDict d) ->
        dict_get (PStr "hex") d = None ->
        exists text,
          json_dumps float_repr (request_failure (missing_field "hex")) = Ok text
          /\ answer = (response_head 400 ++ [Write text], Ok tt))
  /\ (forall l,
        json_loads body = Ok (PList l) ->
        existsb (fun x => key_eqb x (PStr "hex")) l = false ->
        exists text,
          json_dumps float_repr (request_failure (missing_field "hex")) = Ok text
          /\ answer = (response_head 400 ++ [Write text], Ok tt))
  /\ (forall data,
        json_loads body = Ok data ->
        is_scalar data = true ->
        exists text, answer = (response_head 500 ++ [Write text], Ok tt))
  /\ (forall s,
        json_loads body = Ok (PStr s) ->
        is_substring "hex" s = true ->
        exists text, answer = (response_head 500 ++ [Write text], Ok tt)).
Proof.
  cbv zeta. unfold do_POST. rewrite !io_bind_lift.
  split; [|split; [|split; [|split]]].
  - intros msg ->. cbn [io_try is_JSONDecodeError JSONDecodeError String.eqb
                         Ascii.eqb Bool.eqb].
    destruct (json_dumps_request_failure float_repr "Invalid JSON") as [t Ht].
    exists t. split; [exact Ht|]. now rewrite send_json_eq, Ht.
  - intros d -> Hg. cbn [String.eqb Ascii.eqb Bool.eqb].
    rewrite io_bind_lift. cbn [py_contains]. rewrite dict_contains_get, Hg.
    cbn [negb].
    destruct (json_dumps_request_failure float_repr (missing_field "hex"))
      as [t Ht].
    exists t. split; [exact Ht|]. now rewrite send_json_eq, Ht.
  - intros l -> Hl. cbn [String.eqb Ascii.eqb Bool.eqb].
    rewrite io_bind_lift. cbn [py_contains]. rewrite Hl. cbn [negb].
    destruct (json_dumps_request_failure float_repr (missing_field "hex"))
      as [t Ht].
    exists t. split; [exact Ht|]. now rewrite send_json_eq, Ht.
  - intros data -> Hs. cbn [String.eqb Ascii.eqb Bool.eqb].
    rewrite io_bind_lift.
    destruct data; try discriminate; cbn [py_contains io_try is_JSONDecodeError];
      rewrite send_json_eq;
      match goal with
      | |- context [json_dumps float_repr (request_failure ?m)] =>
          destruct (json_dumps_request_failure float_repr m) as [t ->]
      end; eexists; reflexivity.
  - intros s -> Hs. cbn [String.eqb Ascii.eqb Bool.eqb].
    rewrite io_bind_lift. cbn [py_contains]. rewrite Hs. cbn [negb].
    rewrite io_bind_lift. cbn [py_getitem io_try is_JSONDecodeError].
    rewrite send_json_eq.
    match goal with
    | |- context [json_dumps float_repr (request_failure ?m)] =>
        destruct (json_dumps_request_failure float_repr m) as [t ->]
    end. eexists. reflexivity.
Qed.

(** ** Encoding, then decoding *)

(** X12: take the JSON-safe form [j] of a native value on which the round
    trip is lossless, and a codec that decodes the bytes it produced for that
    value to the same value.  Then [encode_cbor] answers [j] with a success
    envelope, and [decode_cbor] on the hex text of that envelope answers with
    [j] again. *)
Theorem decode_after_encode
  (float_repr : spec_float -> string)
  (cbor2_loads : list byte -> outcome pyval)
  (cbor2_dumps : pyval -> outcome (list byte))
  (t0 t1 t2 t3 : spec_float)
  (v j w : pyval) (encoded : list byte) :
  translatable v = true ->
  to_json_safe float_repr v = Ok j ->
  from_json_safe j = Ok w ->
  cbor2_dumps w = Ok encoded ->
  cbor2_loads encoded = Ok w ->
  encode_cbor cbor2_dumps t0 t1 j
  = Ok (PDict [(PStr "success", PBool true);
               (PStr "hex", PStr (bytes_hex encoded));
               (PStr "duration_ms", PFloat (elapsed_ms t0 t1))])
  /\ decode_cbor float_repr cbor2_loads t2 t3 (PStr (bytes_hex encoded))
     = Ok (PDict [(PStr "success", PBool true);
                  (PStr "result", j);
                  (PStr "duration_ms", PFloat (elapsed_ms t2 t3))]).
Proof.
  intros Ht Hj Hw Hd Hl.
  destruct (comes_back_value float_repr v Ht j Hj) as (w' & Hw' & _ & Hs).
  rewrite Hw in Hw'. injection Hw' as <-.
  split.
  - unfold encode_cbor. rewrite Hw. cbn [bind]. now rewrite Hd.
  - unfold decode_cbor. cbn [bytes_fromhex]. rewrite fromhex_hex. cbn [bind].
    rewrite Hl. cbn [bind]. now rewrite Hs.
Qed.

Lemma decode_after_encode_witness :
  encode_cbor (fun _ => Ok [x42; x01; x02]) (S754_zero false) (S754_zero false)
    (PDict [(K_bytes, PStr "0102")])
  = Ok (PDict [(PStr "success", PBool true);
               (PStr "hex", PStr "420102");
               (PStr "duration_ms",
                 PFloat (elapsed_ms (S754_zero false) (S754_zero false)))])
  /\ decode_cbor repr_unused (fun _ => Ok (PBytes [x01; x02]))
       (S754_zero false) (S754_zero false) (PStr "420102")
     = Ok (PDict [(PStr "success", PBool true);
                  (PStr "result", PDict [(K_bytes, PStr "0102")]);
                  (PStr "duration_ms",
                    PFloat (elapsed_ms (S754_zero false) (S754_zero false)))]).
Proof.
  exact (decode_after_encode repr_unused
           (fun _ => Ok (PBytes [x01; x02])) (fun _ => Ok [x42; x01; x02])
           (S754_zero false) (S754_zero false) (S754_zero false) (S754_zero false)
           (PBytes [x01; x02]) (PDict [(K_bytes, PStr "0102")])
           (PBytes [x01; x02]) [x42; x01; x02]
           eq_refl eq_refl eq_refl eq_refl eq_refl).
Defined.

(** * The decoder on what [json.dumps] prints *)












Section decoder_facts.

Variable float_repr : spec_float -> string.
Variable float_of_text : string -> spec_float.





















Lemma join_start (c : ascii) (t : string) (parts : list string) :
  exists t', join ", " (String c t :: parts) = String c t'.
Proof. destruct parts; cbn [join append]; eauto. Qed.












Lemma items_start (key xs : string) (ps : list string) :
  exists t, join ", " ((json_string key ++ ": " ++ xs)%string :: ps)
            = String dquote t.
Proof. unfold json_string. cbn [append]. apply join_start. Qed.






End decoder_facts.

(** ** The decoder ends within its fuel *)

Section decoder_fuel.

Variable float_of_text : string -> spec_float.

Lemma skip_whitespace_length (s : string) :
  (String.length (skip_whitespace s) <= String.length s)%nat.
Proof.
  induction s as [|c s IH]; cbn [skip_whitespace]; [lia|].
  destruct (is_json_space c); cbn [String.length]; lia.
Qed.

Lemma scan_map_Found {A B : Type} (f : A -> B) (r : scanned A) (b : B)
  (rest : string) :
  scan_map f r = Found b rest -> exists a, r = Found a rest.
Proof. destruct r; try discriminate. intros [= _ <-]. eauto. Qed.

Lemma scan_map_Failed {A B : Type} (f : A -> B) (r : scanned A) (e : exn) :
  scan_map f r = Failed e -> r = Failed e.
Proof. destruct r; try discriminate. now intros [= <-]. Qed.

Lemma scanstring_length (start : string) (n : nat) :
  forall s v r,
    (String.length s <= n)%nat ->
    scanstring start s = Found v r ->
    (String.length r < String.length s)%nat.
Proof.
  induction n as [|n IH]; intros s v r Hn; destruct s as [|c s];
    try discriminate; cbn [String.length] in Hn; [lia|].
  cbn [scanstring]. destruct (Ascii.eqb c dquote).
  { intros [= _ <-]. cbn [String.length]. lia. }
  destruct (Ascii.eqb c "\").
  - destruct s as [|e s]; [discriminate|]. destruct (Ascii.eqb e "u").
    + destruct s as [|h1 [|h2 [|h3 [|h4 [|x s]]]]]; try discriminate.
      destruct (hex4_value h1 h2 h3 h4) as [m|]; [|discriminate].
      destruct (m <? 256)%N; [|discriminate].
      intros H. apply scan_map_Found in H as [found H].
      apply IH in H; cbn [String.length] in *; lia.
    + destruct (unescape e); [|discriminate].
      intros H. apply scan_map_Found in H as [found H].
      apply IH in H; cbn [String.length] in *; lia.
  - destruct (N_of_ascii c <=? 31)%N; [discriminate|].
    intros H. apply scan_map_Found in H as [found H].
    apply IH in H; cbn [String.length] in *; lia.
Qed.

Lemma scanstring_fuel (start : string) (n : nat) :
  forall s, (String.length s <= n)%nat ->
            scanstring start s <> Failed out_of_fuel.
Proof.
  induction n as [|n IH]; intros s Hn; destruct s as [|c s];
    try discriminate; cbn [String.length] in Hn; [lia|].
  cbn [scanstring]. destruct (Ascii.eqb c dquote); [discriminate|].
  destruct (Ascii.eqb c "\").
  - destruct s as [|e s]; [discriminate|]. destruct (Ascii.eqb e "u").
    + destruct s as [|h1 [|h2 [|h3 [|h4 [|x s]]]]]; try discriminate.
      destruct (hex4_value h1 h2 h3 h4) as [m|]; [|discriminate].
      destruct (m <? 256)%N; [|discriminate].
      intros H. apply scan_map_Failed in H. revert H. apply IH.
      cbn [String.length] in *. lia.
    + destruct (unescape e); [|discriminate].
      intros H. apply scan_map_Failed in H. revert H. apply IH.
      cbn [String.length] in *. lia.
  - destruct (N_of_ascii c <=? 31)%N; [discriminate|].
    intros H. apply scan_map_Failed in H. revert H. apply IH. lia.
Qed.

Lemma span_digits_length (s : string) :
  (String.length (snd (span_digits s)) <= String.length s)%nat.
Proof.
  induction s as [|c s IH]; cbn [span_digits]; [cbn; lia|].
  destruct (is_digit c); [|cbn; lia].
  destruct (span_digits s). cbn [snd String.length] in *. lia.
Qed.

Lemma match_integer_length (s i r : string) :
  match_integer s = Some (i, r) ->
  (String.length r < String.length s)%nat.
Proof.
  destruct s as [|c s]; [discriminate|]. cbn [match_integer].
  destruct (Ascii.eqb c "0").
  - intros [= _ <-]. cbn. lia.
  - destruct (is_digit c); [|discriminate].
    pose proof (span_digits_length s) as H. destruct (span_digits s).
    intros [= _ <-]. cbn [snd String.length] in *. lia.
Qed.

Lemma match_fraction_length (s : string) :
  (String.length (snd (match_fraction s)) <= String.length s)%nat.
Proof.
  destruct s as [|c [|d s]]; cbn [match_fraction snd]; try lia.
  destruct (Ascii.eqb c "." && is_digit d); [|cbn; lia].
  pose proof (span_digits_length s) as H. destruct (span_digits s).
  cbn [snd String.length] in *. lia.
Qed.

Lemma match_exponent_length (s : string) :
  (String.length (snd (match_exponent s)) <= String.length s)%nat.
Proof.
  destruct s as [|e s]; cbn [match_exponent snd]; [lia|].
  destruct (Ascii.eqb e "e" || Ascii.eqb e "E"); [|cbn; lia].
  destruct s as [|g s].
  - cbn. lia.
  - destruct (Ascii.eqb g "+" || Ascii.eqb g "-").
    + pose proof (span_digits_length s) as H.
      destruct (span_digits s) as [[|x ds] r]; cbn [snd String.length] in *; lia.
    + pose proof (span_digits_length (String g s)) as H.
      destruct (span_digits (String g s)) as [[|x ds] r];
        cbn [snd String.length] in *; lia.
Qed.

Lemma match_number_length (s : string) (v : pyval) (r : string) :
  match_number float_of_text s = Found v r ->
  (String.length r < String.length s)%nat.
Proof.
  unfold match_number.
  assert (Hgen : forall negative s1 v r,
             match match_integer s1 with
             | None => Stop s
             | Some (integer, s2) =>
                 let (frac, s3) := match_fraction s2 in
                 let (exp, s4) := match_exponent s3 in
                 match (frac ++ exp)%string with
                 | EmptyString =>
                     if Nat.leb (String.length integer) INT_MAX_STR_DIGITS
                     then Found (PInt (if negative : bool
                                       then - digits_value integer 0
                                       else digits_value integer 0)) s4
                     else Failed (int_text_too_long (String.length integer))
                 | _ =>
                     Found (PFloat (float_of_text
                                      ((if negative then "-" else "")
                                         ++ integer ++ frac ++ exp))) s4
                 end
             end = Found v r ->
             (String.length r < String.length s1)%nat).
  { intros negative s1 v' r'.
    destruct (match_integer s1) as [[i s2]|] eqn:Ei; [|discriminate].
    apply match_integer_length in Ei.
    pose proof (match_fraction_length s2) as Hf.
    destruct (match_fraction s2) as [frac s3]. cbn [snd] in Hf.
    pose proof (match_exponent_length s3) as He.
    destruct (match_exponent s3) as [exp s4]. cbn [snd] in He.
    destruct (frac ++ exp)%string.
    - destruct (Nat.leb _ _); [|discriminate]. intros [= _ <-]. lia.
    - intros [= _ <-]. lia. }
  destruct s as [|c s]; [discriminate|].
  destruct (Ascii.eqb c "-"); intros H;
    [apply (Hgen true s) in H | apply (Hgen false (String c s)) in H];
    cbn [String.length] in *; lia.
Qed.

Lemma match_number_fuel (s : string) :
  match_number float_of_text s <> Failed out_of_fuel.
Proof.
  unfold match_number.
  destruct (match s with
            | EmptyString => (false, s)
            | String c rest => if Ascii.eqb c "-" then (true, rest) else (false, s)
            end) as [negative s1].
  destruct (match_integer s1) as [[i s2]|]; [|discriminate].
  destruct (match_fraction s2) as [frac s3].
  destruct (match_exponent s3) as [exp s4].
  destruct (frac ++ exp)%string; [|discriminate].
  destruct (Nat.leb _ _); discriminate.
Qed.

Lemma after_prefix_length (p s r : string) :
  after_prefix p s = Some r ->
  (String.length r + String.length p = String.length s)%nat.
Proof.
  revert s. induction p as [|c p IH]; intros s; cbn [after_prefix].
  - intros [= <-]. cbn. lia.
  - destruct s as [|d s]; [discriminate|]. destruct (Ascii.eqb c d);
      [|discriminate].
    intros H. apply IH in H. cbn [String.length]. lia.
Qed.

Lemma scan_scalar_length (s : string) (v : pyval) (r : string) :
  scan_scalar float_of_text s = Found v r ->
  (String.length r < String.length s)%nat.
Proof.
  unfold scan_scalar.
  repeat match goal with
         | |- context [after_prefix ?p s] =>
             let E := fresh "E" in
             destruct (after_prefix p s) eqn:E;
             [apply after_prefix_length in E; cbn [String.length] in E;
              intros [= _ <-]; lia|]
         end.
  apply match_number_length.
Qed.

Lemma scan_scalar_fuel (s : string) :
  scan_scalar float_of_text s <> Failed out_of_fuel.
Proof.
  unfold scan_scalar.
  repeat match goal with
         | |- context [after_prefix ?p s] =>
             destruct (after_prefix p s); [discriminate|]
         end.
  apply match_number_fuel.
Qed.

(** With fuel above twice the length of the text, no function of the
    decoder runs out of fuel, and a value that is found leaves a shorter
    text. *)
Lemma scan_once_fuel (fuel : nat) :
  (forall s,
      (2 * String.length s < fuel)%nat ->
      scan_once float_of_text fuel s <> Failed out_of_fuel
      /\ forall v r, scan_once float_of_text fuel s = Found v r ->
                     (String.length r < String.length s)%nat)
  /\ (forall s values,
         (2 * String.length s + 1 < fuel)%nat ->
         parse_array float_of_text fuel s values <> Failed out_of_fuel
         /\ forall v r, parse_array float_of_text fuel s values = Found v r ->
                        (String.length r < String.length s)%nat)
  /\ (forall s pairs,
         (2 * String.length s + 1 < fuel)%nat ->
         parse_object float_of_text fuel s pairs <> Failed out_of_fuel
         /\ forall v r, parse_object float_of_text fuel s pairs = Found v r ->
                        (String.length r < String.length s)%nat).
Proof.
  induction fuel as [|fuel (IHs & IHa & IHo)].
  { repeat split; intros; lia. }
  split; [|split].
  - intros s Hf. destruct s as [|c rest].
    { split; [discriminate|]. intros v r. discriminate. }
    cbn [String.length] in Hf.
    change (scan_once float_of_text (S fuel) (String c rest))
      with (if Ascii.eqb c dquote
            then scan_map PStr (scanstring (String c rest) rest)
            else if Ascii.eqb c "{" then
              match skip_whitespace rest with
              | EmptyString => parse_object float_of_text fuel EmptyString []
              | String c' rest' as inner =>
                  if Ascii.eqb c' "}" then Found (PDict []) rest'
                  else parse_object float_of_text fuel inner []
              end
            else if Ascii.eqb c "[" then
              match skip_whitespace rest with
              | EmptyString => parse_array float_of_text fuel EmptyString []
              | String c' rest' as inner =>
                  if Ascii.eqb c' "]" then Found (PList []) rest'
                  else parse_array float_of_text fuel inner []
              end
            else scan_scalar float_of_text (String c rest)).
    destruct (Ascii.eqb c dquote).
    { split.
      - intros H. apply scan_map_Failed in H. revert H.
        now apply (scanstring_fuel _ (String.length rest)).
      - intros v r H. apply scan_map_Found in H as [found H].
        apply (scanstring_length _ (String.length rest)) in H;
          cbn [String.length]; lia. }
    pose proof (skip_whitespace_length rest) as Hw.
    destruct (Ascii.eqb c "{").
    { destruct (skip_whitespace rest) as [|c' rest'] eqn:E.
      - destruct (IHo EmptyString [] ltac:(cbn; lia)) as [H1 H2].
        split; [exact H1|]. intros v r H. apply H2 in H. cbn in H. lia.
      - cbn [String.length] in Hw. destruct (Ascii.eqb c' "}").
        + split; [discriminate|]. intros v r [= _ <-]. cbn [String.length]. lia.
        + destruct (IHo (String c' rest') [] ltac:(cbn [String.length]; lia))
            as [H1 H2].
          split; [exact H1|]. intros v r H. apply H2 in H.
          cbn [String.length] in *. lia. }
    destruct (Ascii.eqb c "[").
    { destruct (skip_whitespace rest) as [|c' rest'] eqn:E.
      - destruct (IHa EmptyString [] ltac:(cbn; lia)) as [H1 H2].
        split; [exact H1|]. intros v r H. apply H2 in H. cbn in H. lia.
      - cbn [String.length] in Hw. destruct (Ascii.eqb c' "]").
        + split; [discriminate|]. intros v r [= _ <-]. cbn [String.length]. lia.
        + destruct (IHa (String c' rest') [] ltac:(cbn [String.length]; lia))
            as [H1 H2].
          split; [exact H1|]. intros v r H. apply H2 in H.
          cbn [String.length] in *. lia. }
    split; [apply scan_scalar_fuel|].
    intros v r H. now apply scan_scalar_length in H.
  - intros s values Hf.
    change (parse_array float_of_text (S fuel) s values)
      with (match scan_once float_of_text fuel s with
            | Found value rest =>
                match skip_whitespace rest with
                | EmptyString => Malformed "Expecting ',' delimiter" EmptyString
                | String c rest' as here =>
                    if Ascii.eqb c "]" then Found (PList (values ++ [value])) rest'
                    else if Ascii.eqb c ","
                    then parse_array float_of_text fuel (skip_whitespace rest')
                           (values ++ [value])
                    else Malformed "Expecting ',' delimiter" here
                end
            | Stop here => Stop here
            | Malformed msg here => Malformed msg here
            | Failed e => Failed e
            end).
    destruct (IHs s ltac:(lia)) as [H1 H2].
    destruct (scan_once float_of_text fuel s) as [value rest|here|msg here|e].
    + specialize (H2 value rest eq_refl).
      pose proof (skip_whitespace_length rest) as Hw.
      destruct (skip_whitespace rest) as [|c rest'].
      { split; [discriminate|]. intros v r. discriminate. }
      cbn [String.length] in Hw. destruct (Ascii.eqb c "]").
      { split; [discriminate|]. intros v r [= _ <-]. cbn [String.length] in *. lia. }
      destruct (Ascii.eqb c ",").
      * pose proof (skip_whitespace_length rest') as Hw'.
        destruct (IHa (skip_whitespace rest') (values ++ [value]) ltac:(lia))
          as [H3 H4].
        split; [exact H3|]. intros v r H. apply H4 in H. cbn [String.length] in *. lia.
      * split; [discriminate|]. intros v r. discriminate.
    + split; [discriminate|]. intros v r. discriminate.
    + split; [discriminate|]. intros v r. discriminate.
    + split; [|intros v r; discriminate]. intros [= ->]. now apply H1.
  - intros s pairs Hf. destruct s as [|c rest].
    { split; [discriminate|]. intros v r. discriminate. }
    cbn [String.length] in Hf.
    change (parse_object float_of_text (S fuel) (String c rest) pairs)
      with (if Ascii.eqb c dquote then
              match scanstring (String c rest) rest with
              | Found key rest1 =>
                  match skip_whitespace rest1 with
                  | EmptyString => Malformed "Expecting ':' delimiter" EmptyString
                  | String c1 rest2 as here =>
                      if Ascii.eqb c1 ":" then
                        match scan_once float_of_text fuel
                                (skip_whitespace rest2) with
                        | Found value rest3 =>
                            match skip_whitespace rest3 with
                            | EmptyString =>
                                Malformed "Expecting ',' delimiter" EmptyString
                            | String c3 rest4 as here3 =>
                                if Ascii.eqb c3 "}"
                                then Found (PDict (dict_setitem (PStr key)
                                                     value pairs)) rest4
                                else if Ascii.eqb c3 ","
                                then parse_object float_of_text fuel
                                       (skip_whitespace rest4)
                                       (dict_setitem (PStr key) value pairs)
                                else Malformed "Expecting ',' delimiter" here3
                            end
                        | Stop here' => Stop here'
                        | Malformed msg here' => Malformed msg here'
                        | Failed e => Failed e
                        end
                      else Malformed "Expecting ':' delimiter" here
                  end
              | Stop here => Stop here
              | Malformed msg here => Malformed msg here
              | Failed e => Failed e
              end
            else Malformed "Expecting property name enclosed in double quotes"
                   (String c rest)).
    destruct (Ascii.eqb c dquote);
      [|split; [discriminate | intros v r; discriminate]].
    pose proof (scanstring_fuel (String c rest) (String.length rest) rest
                  (le_n _)) as Hsf.
    pose proof (scanstring_length (String c rest) (String.length rest) rest)
      as Hsl.
    destruct (scanstring (String c rest) rest) as [key rest1|here|msg here|e];
      try (split; [discriminate | intros v r; discriminate]).
    + specialize (Hsl key rest1 (le_n _) eq_refl).
      pose proof (skip_whitespace_length rest1) as Hw1.
      destruct (skip_whitespace rest1) as [|c1 rest2];
        [split; [discriminate | intros v r; discriminate]|].
      cbn [String.length] in Hw1.
      destruct (Ascii.eqb c1 ":");
        [|split; [discriminate | intros v r; discriminate]].
      pose proof (skip_whitespace_length rest2) as Hw2.
      destruct (IHs (skip_whitespace rest2) ltac:(lia)) as [H1 H2].
      destruct (scan_once float_of_text fuel (skip_whitespace rest2))
        as [value rest3|here|msg here|e];
        try (split; [discriminate | intros v r; discriminate]).
      * specialize (H2 value rest3 eq_refl).
        pose proof (skip_whitespace_length rest3) as Hw3.
        destruct (skip_whitespace rest3) as [|c3 rest4];
          [split; [discriminate | intros v r; discriminate]|].
        cbn [String.length] in Hw3. destruct (Ascii.eqb c3 "}").
        { split; [discriminate|]. intros v r [= _ <-]. cbn [String.length] in *. lia. }
        destruct (Ascii.eqb c3 ",");
          [|split; [discriminate | intros v r; discriminate]].
        pose proof (skip_whitespace_length rest4) as Hw4.
        destruct (IHo (skip_whitespace rest4)
                    (dict_setitem (PStr key) value pairs) ltac:(lia))
          as [H3 H4].
        split; [exact H3|]. intros v r H. apply H4 in H. cbn [String.length] in *. lia.
      * split; [|intros v r; discriminate]. intros [= ->]. now apply H1.
    + split; [|intros v r; discriminate]. intros [= ->]. now apply Hsf.
Qed.

(** [json.loads] never runs out of fuel. *)
Lemma json_loads_fuel (doc : string) :
  json_loads float_of_text doc <> Raise out_of_fuel.
Proof.
  unfold json_loads.
  pose proof (skip_whitespace_length doc) as Hw.
  destruct (proj1 (scan_once_fuel (2 * String.length doc + 1))
              (skip_whitespace doc) ltac:(lia)) as [H _].
  destruct (scan_once float_of_text (2 * String.length doc + 1)
              (skip_whitespace doc)) as [v rest|here|msg here|e].
  - destruct (skip_whitespace rest); [discriminate|].
    unfold decode_error. destruct (line_column _ _ _). discriminate.
  - unfold decode_error. destruct (line_column _ _ _). discriminate.
  - unfold decode_error. destruct (line_column _ _ _). discriminate.
  - intros [= ->]. now apply H.
Qed.

End decoder_fuel.

(** ** Map keys *)




